(** * RipRap service worker (dist/sw.js): a shallow embedding

    The worker is a set of event listeners over three platform services:
    the CacheStorage (`caches`), the network (`fetch`) and the worker's own
    life cycle (`skipWaiting`, `clients.claim`, `waitUntil`, `respondWith`).
    The listeners are embedded as functions that build promise chains; a
    promise chain is a function from the platform state to its settlement,
    the state it leaves, and the chains it started without returning them. *)

From Stdlib Require Import String Ascii ZArith List Bool.
From stdpp Require Import gmap strings list fin_maps.
Import ListNotations.
Local Open Scope string_scope.
Local Open Scope list_scope.
Local Open Scope Z_scope.

(** ** Data model *)

(** A request as the fetch listener reads it, `request.url` (always an
    absolute, serialised URL) and `request.destination`, and its
    `request.method`, which the listener never reads but the Cache API
    does. *)
Record Request := {
  url : string;
  destination : string;
  method : string;
}.

(** A response as the listeners read it, `response.status`,
    `response.statusText`, `response.type` and the body text, and the
    values of its `Vary` header, which the listeners never read but the
    Cache API does. *)
Record Response := {
  status : Z;
  statusText : string;
  type : string;
  body : string;
  vary : list string;
}.

(** The settlement of a promise; a rejection carries `error.message`. *)
Inductive Settled (A : Type) : Type :=
| Resolved (value : A)
| Rejected (message : string).
Arguments Resolved {A} value.
Arguments Rejected {A} message.

(** The object posted back over a reply port (sw.js:176 and sw.js:179). *)
Record Reply := {
  success : bool;
  error : option string;
}.

(** What the worker does to the world outside the cache regions, in the
    order it happens. *)
Inductive Effect :=
| ConsoleLog (text : string)
| ConsoleError (text : string)
| NetworkFetch (target : string)
| SkipWaiting
| ClientsClaim
| PostMessage (port : nat) (reply : Reply)
| ShowNotification (title text : string)
| NotificationClose
| OpenWindow (target : string).

(** The platform state: the CacheStorage, a list of named regions in
    creation order (the order `caches.keys()` and `caches.match()` follow),
    each region a map from request URL to stored response; and the effects
    performed so far. *)
Record World := {
  caches : list (string * gmap string Response);
  trace : list Effect;
}.

(** What the worker cannot decide: its own origin (`location.origin`), what
    the network answers for an absolute URL, and what opening the IndexedDB
    database yields (the names of its object stores). *)
Record Env := {
  location_origin : string;
  network : string -> Settled Response;
  indexedDB_open : Settled (list string);
  showNotification_allowed : bool;
}.

(** ** Promise chains *)

(** A chain started and not returned: nobody observes its settlement. *)
Definition Job := Env -> World -> Settled unit * World.

Record Outcome (A : Type) := {
  settled : Settled A;
  after : World;
  started : list Job;
}.
Arguments settled {A} _.
Arguments after {A} _.
Arguments started {A} _.

Definition Promise (A : Type) := Env -> World -> Outcome A.

Definition resolve {A} (a : A) : Promise A :=
  fun _ w => {| settled := Resolved a; after := w; started := [] |}.

Definition reject {A} (message : string) : Promise A :=
  fun _ w => {| settled := Rejected message; after := w; started := [] |}.

(** `p.then(f)` *)
Definition then_ {A B} (p : Promise A) (f : A -> Promise B) : Promise B :=
  fun env w =>
    let o := p env w in
    match settled o with
    | Resolved a =>
        let o' := f a env (after o) in
        {| settled := settled o'; after := after o';
           started := started o ++ started o' |}
    | Rejected m =>
        {| settled := Rejected m; after := after o; started := started o |}
    end.

(** `p.catch(h)` *)
Definition catch_ {A} (p : Promise A) (h : string -> Promise A) : Promise A :=
  fun env w =>
    let o := p env w in
    match settled o with
    | Resolved a => o
    | Rejected m =>
        let o' := h m env (after o) in
        {| settled := settled o'; after := after o';
           started := started o ++ started o' |}
    end.

Declare Scope promise_scope.
Delimit Scope promise_scope with promise.
Notation "'let*' x ':=' p 'in' k" := (then_ p (fun x => k))
  (at level 10, x name, p at level 100, k at level 200) : promise_scope.
Notation "p ';;;' k" := (then_ p (fun _ => k))
  (at level 100, k at level 200, right associativity) : promise_scope.
Local Open Scope promise_scope.

(** One effect on the outside world. *)
Definition perform (e : Effect) : Promise unit :=
  fun _ w =>
    {| settled := Resolved tt;
       after := {| caches := caches w; trace := trace w ++ [e] |};
       started := [] |}.

(** A chain that is created inside a callback and not returned from it:
    the callback goes on at once, the chain is left to run on its own. *)
Definition detach (p : Promise unit) : Job :=
  fun env w => let o := p env w in (settled o, after o).

Definition float (p : Promise unit) : Promise unit :=
  fun _ w => {| settled := Resolved tt; after := w; started := [detach p] |}.

(** `Promise.all(ps)`: every chain of the list has been started, so every
    one runs; the result rejects with the first rejection. *)
Fixpoint all {A} (ps : list (Promise A)) : Promise (list A) :=
  match ps with
  | [] => resolve []
  | p :: rest =>
      fun env w =>
        let o := p env w in
        let o' := all rest env (after o) in
        {| settled :=
             match settled o, settled o' with
             | Resolved a, Resolved l => Resolved (a :: l)
             | Rejected m, _ => Rejected m
             | Resolved _, Rejected m => Rejected m
             end;
           after := after o';
           started := started o ++ started o' |}
  end.

(** ** The platform services *)

Definition set_caches (st : list (string * gmap string Response)) (w : World) : World :=
  {| caches := st; trace := trace w |}.

(** The region called [cacheName], if there is one. *)
Fixpoint region (cacheName : string) (st : list (string * gmap string Response))
  : option (gmap string Response) :=
  match st with
  | [] => None
  | (n, c) :: rest => if String.eqb n cacheName then Some c else region cacheName rest
  end.

(** The unified lookup of `caches.match`: the regions in creation order,
    the first stored response wins. *)
Fixpoint match_all (key : string) (st : list (string * gmap string Response))
  : option Response :=
  match st with
  | [] => None
  | (_, c) :: rest =>
      match c !! key with
      | Some r => Some r
      | None => match_all key rest
      end
  end.

Definition delete_region (cacheName : string) (st : list (string * gmap string Response))
  : list (string * gmap string Response) :=
  List.filter (fun nc => negb (String.eqb (fst nc) cacheName)) st.

Fixpoint update_region (cacheName : string)
    (f : gmap string Response -> gmap string Response)
    (st : list (string * gmap string Response))
  : list (string * gmap string Response) :=
  match st with
  | [] => []
  | (n, c) :: rest =>
      if String.eqb n cacheName then (n, f c) :: rest
      else (n, c) :: update_region cacheName f rest
  end.

(** `array.includes(x)` on strings *)
Definition includes (l : list string) (x : string) : bool :=
  List.existsb (String.eqb x) l.

(** The part of [s] before its first "/", "?" or "#". *)
Fixpoint authority (s : string) : string :=
  match s with
  | EmptyString => EmptyString
  | String c rest =>
      if (Ascii.eqb c "/"%char || Ascii.eqb c "?"%char || Ascii.eqb c "#"%char)%bool then EmptyString
      else String c (authority rest)
  end.

(** The serialised form of an absolute URL: the path of a URL that has
    none is "/" ("https://host" is "https://host/"). *)
Definition with_path (u : string) : string :=
  match String.index 0 "://" u with
  | Some i =>
      let rest := String.substring (i + 3)%nat (String.length u) u in
      let host := authority rest in
      let tail := String.substring (String.length host) (String.length rest) rest in
      if String.prefix "/" tail then u
      else String.substring 0 (i + 3)%nat u ++ host ++ "/" ++ tail
  | None => u
  end.

(** A URL given to the Cache API or to `openWindow` is resolved against the
    worker's location and serialised: an absolute path is put under the
    worker's origin, an absolute URL gets its path. *)
Definition resolve_url (env : Env) (u : string) : string :=
  if String.prefix "/" u then location_origin env ++ u else with_path u.

(** The storage once [cacheName] has been opened: a missing region is
    created empty, after the existing ones. *)
Definition opened (cacheName : string) (st : list (string * gmap string Response))
  : list (string * gmap string Response) :=
  match region cacheName st with
  | Some _ => st
  | None => st ++ [(cacheName, ∅)]
  end.

(** `caches.open(cacheName)`: creates the region when it is missing. *)
Definition caches_open (cacheName : string) : Promise string :=
  fun _ w =>
    {| settled := Resolved cacheName;
       after := set_caches (opened cacheName (caches w)) w;
       started := [] |}.

(** `caches.delete(cacheName)`: resolves to whether the region existed. *)
Definition caches_delete (cacheName : string) : Promise bool :=
  fun _ w =>
    {| settled := Resolved (if region cacheName (caches w) is Some _ then true else false);
       after := set_caches (delete_region cacheName (caches w)) w;
       started := [] |}.

(** `caches.keys()` *)
Definition caches_keys : Promise (list string) :=
  fun _ w => {| settled := Resolved (List.map fst (caches w)); after := w; started := [] |}.

(** `caches.match(request)`: the key is the request's URL.  The lookup is
    by URL alone; where a statement below speaks of a request that is found
    or not found, it is the result of this lookup that is meant. *)
Definition caches_match (key : string) : Promise (option Response) :=
  fun env w =>
    {| settled := Resolved (match_all (resolve_url env key) (caches w));
       after := w; started := [] |}.

(** The responses the Cache API agrees to store: not a partial response
    (status 206), and no `Vary: *`. *)
Definition storable (response : Response) : bool :=
  negb (status response =? 206) && negb (includes (vary response) "*").

(** `cache.put(request, response)` on the region opened as [cache]:
    rejects, storing nothing, for a request whose method is not GET and for
    a response that is not storable. *)
Definition cache_put (cache : string) (request : Request) (response : Response)
  : Promise unit :=
  fun env w =>
    if negb (String.eqb (method request) "GET")
    then reject ("Request method '" ++ method request ++ "' is unsupported") env w
    else if negb (storable response)
    then reject "Response is not storable" env w
    else
      {| settled := Resolved tt;
         after := set_caches
                    (update_region cache
                       (fun c => <[resolve_url env (url request) := response]> c)
                       (caches w)) w;
         started := [] |}.

(** `fetch(request)`: goes to the network; rejects when it is unreachable. *)
Definition fetch (target : string) : Promise Response :=
  fun env w =>
    {| settled := network env target;
       after := {| caches := caches w; trace := trace w ++ [NetworkFetch target] |};
       started := [] |}.

(** `response.ok` *)
Definition ok (r : Response) : bool := (200 <=? status r) && (status r <=? 299).

(** The responses of a bulk population, when every one of them arrived, is
    `ok` and is storable; otherwise the message of the first failure. *)
Fixpoint fetched_all (env : Env) (targets : list string) : Settled (list (string * Response)) :=
  match targets with
  | [] => Resolved []
  | t :: rest =>
      match network env t with
      | Rejected m => Rejected m
      | Resolved r =>
          if ok r && storable r then
            match fetched_all env rest with
            | Resolved l => Resolved ((t, r) :: l)
            | Rejected m => Rejected m
            end
          else Rejected "Request failed"
      end
  end.

(** A region after the entries of [l] have been put into it, in order. *)
Definition populated (l : list (string * Response)) (c : gmap string Response)
  : gmap string Response :=
  List.fold_left (fun acc kr => <[fst kr := snd kr]> acc) l c.

(** `cache.addAll(urls)`: fetches every URL; stores all the responses, or
    none of them when one fetch fails or answers with a status that is not
    `ok`, with status 206 or with `Vary: *`. *)
Definition cache_addAll (cache : string) (urls : list string) : Promise unit :=
  fun env w =>
    let targets := List.map (resolve_url env) urls in
    let w1 := {| caches := caches w; trace := trace w ++ List.map NetworkFetch targets |} in
    match fetched_all env targets with
    | Resolved l =>
        {| settled := Resolved tt;
           after := set_caches (update_region cache (populated l) (caches w1)) w1;
           started := [] |}
    | Rejected m => {| settled := Rejected m; after := w1; started := [] |}
    end.

(** ** The worker (dist/sw.js) *)

Definition CACHE_NAME : string := "shorelore-v1.0.0".
Definition STATIC_CACHE_NAME : string := "shorelore-static-v1.0.0".
Definition DYNAMIC_CACHE_NAME : string := "shorelore-dynamic-v1.0.0".

Definition STATIC_FILES : list string := [
  "/";
  "/index.html";
  "/src/App.jsx";
  "/public/manifest.json";
  "/public/icons/icon-192x192.png";
  "/public/icons/icon-512x512.png";
  "https://cdn.tailwindcss.com";
  "https://unpkg.com/react@18/umd/react.development.js";
  "https://unpkg.com/react-dom@18/umd/react-dom.development.js";
  "https://unpkg.com/@babel/standalone/babel.min.js"
].

(** `new URL(u).origin` for the serialised URL of a request: scheme, "://"
    and authority; "null" when the URL has no authority. *)
Definition url_origin (u : string) : string :=
  match String.index 0 "://" u with
  | Some i =>
      let rest := String.substring (i + 3)%nat (String.length u) u in
      String.substring 0 i u ++ "://" ++ authority rest
  | None => "null"
  end.

(** What a listener has done when it returns: the calls it made itself,
    the chain it gave to `event.respondWith`, the chains it gave to
    `event.waitUntil`, and the chains it started and gave to neither. *)
Record Reaction := {
  immediate : list Effect;
  respondWith : option (Promise (option Response));
  waitUntil : list (Promise unit);
  unreturned : list Job;
}.

(** *** install (sw.js:21-37) *)

Definition install_chain : Promise unit :=
  catch_
    (let* cache := caches_open STATIC_CACHE_NAME in
     perform (ConsoleLog "[SW] Caching static files") ;;;
     cache_addAll cache STATIC_FILES)
    (fun error =>
       perform (ConsoleError ("[SW] Failed to cache static files: " ++ error))).

Definition on_install : Reaction :=
  {| immediate := [ConsoleLog "[SW] Installing service worker..."; SkipWaiting];
     respondWith := None;
     waitUntil := [install_chain];
     unreturned := [] |}.

(** *** activate (sw.js:40-60) *)

Definition delete_old (cacheName : string) : Promise unit :=
  if (negb (String.eqb cacheName STATIC_CACHE_NAME)
      && negb (String.eqb cacheName DYNAMIC_CACHE_NAME))%bool
  then perform (ConsoleLog ("[SW] Deleting old cache: " ++ cacheName)) ;;;
       caches_delete cacheName ;;; resolve tt
  else resolve tt.

Definition activate_cleanup : Promise (list unit) :=
  let* cacheNames := caches_keys in
  all (List.map delete_old cacheNames).

Definition clients_claim : Promise unit := perform ClientsClaim.

Definition activate_chain : Promise unit :=
  activate_cleanup ;;; clients_claim.

Definition on_activate : Reaction :=
  {| immediate := [ConsoleLog "[SW] Activating service worker..."];
     respondWith := None;
     waitUntil := [activate_chain];
     unreturned := [] |}.

(** *** fetch (sw.js:63-115) *)

(** `new Response('Offline - Content not available', {status: 503, ...})` *)
Definition offline_response : Response :=
  {| status := 503;
     statusText := "Service Unavailable";
     type := "default";
     body := "Offline - Content not available";
     vary := [] |}.

(** `response.clone()`: a second response with the same content. *)
Definition clone (r : Response) : Response := r.

(** sw.js:93-96.  The chain is not returned from the callback that builds
    it, and neither is the `put` inside it: nobody observes how it settles. *)
Definition cache_fetched (request : Request) (responseToCache : Response) : Promise unit :=
  let* cache := caches_open DYNAMIC_CACHE_NAME in
  cache_put cache request responseToCache.

(** sw.js:82-112 *)
Definition fetch_from_network (request : Request) : Promise (option Response) :=
  catch_
    (let* response := fetch (url request) in
     if (negb (status response =? 200) || negb (String.eqb (type response) "basic"))%bool
     then resolve (Some response)
     else
       let responseToCache := clone response in
       float (cache_fetched request responseToCache) ;;;
       perform (ConsoleLog ("[SW] Fetched and cached: " ++ url request)) ;;;
       resolve (Some response))
    (fun _ =>
       if String.eqb (destination request) "document"
       then caches_match "/index.html"
       else resolve (Some offline_response)).

(** sw.js:73-113 *)
Definition fetch_chain (request : Request) : Promise (option Response) :=
  let* cachedResponse := caches_match (url request) in
  match cachedResponse with
  | Some r =>
      perform (ConsoleLog ("[SW] Serving from cache: " ++ url request)) ;;;
      resolve (Some r)
  | None => fetch_from_network request
  end.

(** sw.js:68, the guard of the early `return`:
    `url.origin !== location.origin && !STATIC_FILES.includes(request.url)` *)
Definition skipped (env : Env) (request : Request) : bool :=
  negb (String.eqb (url_origin (url request)) (location_origin env))
  && negb (includes STATIC_FILES (url request)).

Definition on_fetch (env : Env) (request : Request) : Reaction :=
  if skipped env request
  then {| immediate := []; respondWith := None; waitUntil := []; unreturned := [] |}
  else {| immediate := [];
          respondWith := Some (fetch_chain request);
          waitUntil := [];
          unreturned := [] |}.

(** *** sync (sw.js:118-157) *)

(** `openDB()`: resolves with the opened database, rejects on `onerror`. *)
Definition openDB : Promise (list string) :=
  fun env w => {| settled := indexedDB_open env; after := w; started := [] |}.

(** `db.transaction(['offline_posts'], 'readonly')` throws when the
    database has no such object store. *)
Definition transaction (db : list string) (store : string) : Promise unit :=
  if includes db store then resolve tt
  else reject "One of the specified object stores was not found.".

(** `store.getAll()` returns a request object, not a promise, so the
    `await` hands that object back at once; it has no `length`, and
    `undefined > 0` is false: the count is not logged. *)
Definition syncOfflinePosts : Promise unit :=
  catch_
    (perform (ConsoleLog "[SW] Syncing offline posts...") ;;;
     let* db := openDB in
     transaction db "offline_posts")
    (fun error => perform (ConsoleError ("[SW] Sync failed: " ++ error))).

Definition on_sync (tag : string) : Reaction :=
  {| immediate := [ConsoleLog ("[SW] Background sync triggered: " ++ tag)];
     respondWith := None;
     waitUntil := if String.eqb tag "sync-posts" then [syncOfflinePosts] else [];
     unreturned := [] |}.

(** *** message (sw.js:160-182) *)

(** `event.ports[0].postMessage(reply)`: reading `postMessage` of
    `undefined` throws when the event carries no port. *)
Definition ports0_postMessage (ports : list nat) (reply : Reply) : Promise unit :=
  match ports with
  | port :: _ => perform (PostMessage port reply)
  | [] => reject "Cannot read properties of undefined (reading 'postMessage')"
  end.

(** sw.js:167-180 *)
Definition update_cache (ports : list nat) : Promise unit :=
  catch_
    (caches_delete STATIC_CACHE_NAME ;;;
     caches_delete DYNAMIC_CACHE_NAME ;;;
     let* cache := caches_open STATIC_CACHE_NAME in
     cache_addAll cache STATIC_FILES ;;;
     ports0_postMessage ports {| success := true; error := None |})
    (fun error =>
       ports0_postMessage ports {| success := false; error := Some error |}).

(** `event.data && event.data.type === t`, for [data] the `type` of the
    message data when the data is an object that has one. *)
Definition data_type_is (data : option string) (t : string) : bool :=
  match data with
  | Some ty => String.eqb ty t
  | None => false
  end.

Definition on_message (data : option string) (ports : list nat) : Reaction :=
  {| immediate := if data_type_is data "SKIP_WAITING" then [SkipWaiting] else [];
     respondWith := None;
     waitUntil := [];
     unreturned := if data_type_is data "UPDATE_CACHE"
                   then [detach (update_cache ports)] else [] |}.

(** *** push (sw.js:185-210) *)

Definition showNotification (title text : string) : Promise unit :=
  fun env =>
    if showNotification_allowed env then perform (ShowNotification title text) env
    else reject "No notification permission has been granted for this origin." env.

Definition on_push (data : option string) : Reaction :=
  {| immediate := [ConsoleLog "[SW] Push notification received"];
     respondWith := None;
     waitUntil :=
       [showNotification "ShoreLore"
          (match data with
           | Some text => text
           | None => "New activity in your fishing community!"
           end)];
     unreturned := [] |}.

(** *** notificationclick (sw.js:213-223) *)

Definition clients_openWindow (target : string) : Promise unit :=
  fun env => perform (OpenWindow (resolve_url env target)) env.

Definition on_notificationclick (action : string) : Reaction :=
  {| immediate := [ConsoleLog ("[SW] Notification clicked: " ++ action); NotificationClose];
     respondWith := None;
     waitUntil := if String.eqb action "view" then [clients_openWindow "/"] else [];
     unreturned := [] |}.

(** ** The platform delivering an event *)

Inductive Event :=
| InstallEvent
| ActivateEvent
| FetchEvent (request : Request)
| SyncEvent (tag : string)
| MessageEvent (data : option string) (ports : list nat)
| PushEvent (data : option string)
| NotificationClickEvent (action : string).

Definition listener (env : Env) (event : Event) : Reaction :=
  match event with
  | InstallEvent => on_install
  | ActivateEvent => on_activate
  | FetchEvent request => on_fetch env request
  | SyncEvent tag => on_sync tag
  | MessageEvent data ports => on_message data ports
  | PushEvent data => on_push data
  | NotificationClickEvent action => on_notificationclick action
  end.

(** The state of an event once everything the platform was told to wait
    for has settled: the response handed over (when the listener
    responded), the world at that moment, and the chains still on their
    own, which the platform is free to cut short. *)
Record Delivered := {
  response : option (Settled (option Response));
  at_settlement : World;
  left_over : list Job;
}.

Fixpoint settle_waited (env : Env) (ps : list (Promise unit)) (w : World)
  : World * list Job :=
  match ps with
  | [] => (w, [])
  | p :: rest =>
      let o := p env w in
      let '(w', jobs) := settle_waited env rest (after o) in
      (w', started o ++ jobs)
  end.

Definition deliver (env : Env) (event : Event) (w : World) : Delivered :=
  let r := listener env event in
  let w0 := {| caches := caches w; trace := trace w ++ immediate r |} in
  match respondWith r with
  | Some p =>
      let o := p env w0 in
      let '(w', jobs) := settle_waited env (waitUntil r) (after o) in
      {| response := Some (settled o);
         at_settlement := w';
         left_over := unreturned r ++ started o ++ jobs |}
  | None =>
      let '(w', jobs) := settle_waited env (waitUntil r) w0 in
      {| response := None; at_settlement := w'; left_over := unreturned r ++ jobs |}
  end.

(** The chains left on their own, run to the end: what happens when the
    worker is kept alive long enough. *)
Definition run_jobs (env : Env) (jobs : list Job) (w : World) : World :=
  List.fold_left (fun w' job => snd (job env w')) jobs w.

Definition run_to_end (env : Env) (event : Event) (w : World) : World :=
  let d := deliver env event w in
  run_jobs env (left_over d) (at_settlement d).

(** The network fetches among a list of effects. *)
Definition network_fetches (es : list Effect) : list string :=
  List.flat_map (fun e => match e with NetworkFetch t => [t] | _ => [] end) es.

(** The replies posted among a list of effects. *)
Definition posted (es : list Effect) : list (nat * Reply) :=
  List.flat_map (fun e => match e with PostMessage p r => [(p, r)] | _ => [] end) es.

(** ** Auxiliary notions used in the statements *)

(** The world in which the DYNAMIC write of sw.js:93-96 has been done. *)
Definition written (env : Env) (request : Request) (r : Response) (w : World) : World :=
  after (cache_fetched request r env w).

(** The responses the guard of sw.js:85 lets through to the DYNAMIC write:
    status 200 and type 'basic'. *)
Definition cacheable (r : Response) : bool :=
  (status r =? 200) && String.eqb (type r) "basic".

(** What `cache.put(request, response)` accepts: a GET request and a
    storable response. *)
Definition accepted (request : Request) (r : Response) : bool :=
  String.eqb (method request) "GET" && storable r.

(** The region names of the running version. *)
Definition current (cacheName : string) : bool :=
  String.eqb cacheName STATIC_CACHE_NAME || String.eqb cacheName DYNAMIC_CACHE_NAME.

(** The absolute URLs of the enumerated static assets. *)
Definition static_targets (env : Env) : list string :=
  List.map (resolve_url env) STATIC_FILES.

(** The platform of [env] with another network. *)
Definition with_network (env : Env) (net : string -> Settled Response) : Env :=
  {| location_origin := location_origin env;
     network := net;
     indexedDB_open := indexedDB_open env;
     showNotification_allowed := showNotification_allowed env |}.

(** Fetch events that overlap.  One step is either a fetch event that
    arrives, on the network of that moment, and is taken up to the
    settlement of its response, its unawaited write joining the pending
    ones; or one of the pending writes, whichever, that lands. *)
Inductive Step :=
| Arrives (net : string -> Settled Response) (request : Request)
| Lands (i : nat).

Definition step (env : Env) (s : Step) (wp : World * list Job) : World * list Job :=
  match s with
  | Arrives net request =>
      let d := deliver (with_network env net) (FetchEvent request) (fst wp) in
      (at_settlement d, snd wp ++ left_over d)
  | Lands i =>
      match List.nth_error (snd wp) i with
      | Some job => (snd (job env (fst wp)), List.firstn i (snd wp) ++ List.skipn (S i) (snd wp))
      | None => wp
      end
  end.

(** A run of such steps from a world where no write is pending. *)
Definition interleaved (env : Env) (steps : list Step) (w : World) : World * list Job :=
  List.fold_left (fun wp s => step env s wp) steps (w, []).

(** A run of arbitrary events, each one left to finish before the next. *)
Definition events (env : Env) (evs : list Event) (w : World) : World :=
  List.fold_left (fun w' event => run_to_end env event w') evs w.

(** The names of the regions of a storage, in creation order. *)
Definition region_names (st : list (string * gmap string Response)) : list string :=
  List.map fst st.

(** A scheme without ":" and a host without "/", "?" or "#": the shape of
    the two parts of a serialised origin. *)
Fixpoint plain_scheme (s : string) : bool :=
  match s with
  | EmptyString => true
  | String c rest => negb (Ascii.eqb c ":"%char) && plain_scheme rest
  end.

Fixpoint plain_host (s : string) : bool :=
  match s with
  | EmptyString => true
  | String c rest =>
      negb (Ascii.eqb c "/"%char || Ascii.eqb c "?"%char || Ascii.eqb c "#"%char)
      && plain_host rest
  end.

(** The four absolute URLs of the enumerated static assets. *)
Definition CDN_FILES : list string := [
  "https://cdn.tailwindcss.com";
  "https://unpkg.com/react@18/umd/react.development.js";
  "https://unpkg.com/react-dom@18/umd/react-dom.development.js";
  "https://unpkg.com/@babel/standalone/babel.min.js"
].

(** ** Concrete platforms and requests, used to run the listeners *)

Module Scenario.

Definition origin : string := "https://riprap.example".

Definition page : Response :=
  {| status := 200; statusText := "OK"; type := "basic"; body := "<html></html>";
     vary := [] |}.

Definition not_found : Response :=
  {| status := 404; statusText := "Not Found"; type := "basic"; body := "";
     vary := [] |}.

(** Every fetch answers 200 with a basic response. *)
Definition online : Env :=
  {| location_origin := origin;
     network := fun _ => Resolved page;
     indexedDB_open := Resolved [];
     showNotification_allowed := true |}.

(** A response that may vary on anything. *)
Definition negotiated : Response :=
  {| status := 200; statusText := "OK"; type := "basic"; body := "<html></html>";
     vary := ["*"] |}.

(** Every fetch answers 200 with a basic response carrying `Vary: *`. *)
Definition negotiating : Env :=
  {| location_origin := origin;
     network := fun _ => Resolved negotiated;
     indexedDB_open := Resolved [];
     showNotification_allowed := true |}.

(** Every fetch answers 404. *)
Definition missing : Env :=
  {| location_origin := origin;
     network := fun _ => Resolved not_found;
     indexedDB_open := Resolved [];
     showNotification_allowed := true |}.

(** The network is unreachable. *)
Definition offline : Env :=
  {| location_origin := origin;
     network := fun _ => Rejected "Failed to fetch";
     indexedDB_open := Resolved [];
     showNotification_allowed := true |}.

Definition fresh : World := {| caches := []; trace := [] |}.

Definition posts : Request :=
  {| url := "https://riprap.example/api/posts"; destination := ""; method := "GET" |}.

(** The same URL, posted to. *)
Definition submit : Request :=
  {| url := "https://riprap.example/api/posts"; destination := ""; method := "POST" |}.

Definition navigation : Request :=
  {| url := "https://riprap.example/catches"; destination := "document";
     method := "GET" |}.

Definition tracker : Request :=
  {| url := "https://ads.example/pixel.gif"; destination := "image"; method := "GET" |}.

(** A storage where the root document is cached in the STATIC region. *)
Definition installed : World :=
  {| caches := [(STATIC_CACHE_NAME, {["https://riprap.example/index.html" := page]})];
     trace := [] |}.

(** A storage where the DYNAMIC region holds an entry, and a region created
    later under the name [CACHE_NAME] holds the same one. *)
Definition with_other_region : World :=
  {| caches := [(STATIC_CACHE_NAME, ∅);
                (DYNAMIC_CACHE_NAME, {["https://riprap.example/api/posts" := page]});
                (CACHE_NAME, {["https://riprap.example/api/posts" := page]})];
     trace := [] |}.

(** A storage that still holds the regions of an older version. *)
Definition upgraded : World :=
  {| caches := [("shorelore-static-v0.9.0", {["https://riprap.example/" := page]});
                ("shorelore-dynamic-v0.9.0", ∅);
                (STATIC_CACHE_NAME, ∅)];
     trace := [] |}.

End Scenario.

(** ** Facts about the storage *)

Section Storage.

Implicit Types (st : list (string * gmap string Response)) (key name : string).

Lemma includes_In (l : list string) (x : string) :
  includes l x = true <-> In x l.
Proof.
  unfold includes. rewrite existsb_exists. split.
  - intros [y [Hy He]]. apply String.eqb_eq in He. now subst.
  - intros Hx. exists x. split; [assumption | apply String.eqb_refl].
Qed.

Lemma match_all_app key st1 st2 :
  match_all key (st1 ++ st2) =
  match match_all key st1 with
  | Some r => Some r
  | None => match_all key st2
  end.
Proof.
  induction st1 as [| [n c] st1 IH]; simpl; [reflexivity |].
  destruct (c !! key); [reflexivity | exact IH].
Qed.

Lemma region_app name st1 st2 :
  region name (st1 ++ st2) =
  match region name st1 with
  | Some c => Some c
  | None => region name st2
  end.
Proof.
  induction st1 as [| [n c] st1 IH]; simpl; [reflexivity |].
  destruct (String.eqb n name); [reflexivity | exact IH].
Qed.

Lemma update_region_app_r name f st1 st2 :
  region name st1 = None ->
  update_region name f (st1 ++ st2) = st1 ++ update_region name f st2.
Proof.
  induction st1 as [| [n c] st1 IH]; simpl; [reflexivity |].
  destruct (String.eqb n name); [discriminate |].
  intros H. now rewrite IH.
Qed.

Lemma region_update_region name f st :
  region name (update_region name f st) = f <$> region name st.
Proof.
  induction st as [| [n c] st IH]; simpl; [reflexivity |].
  destruct (String.eqb n name) eqn:E; simpl; rewrite E; [reflexivity | exact IH].
Qed.

(** Writing [key] into an existing region makes the unified lookup find
    it, when no region held it before. *)
Lemma match_all_written name key r st :
  match_all key st = None ->
  is_Some (region name st) ->
  match_all key (update_region name (fun c => <[key := r]> c) st) = Some r.
Proof.
  induction st as [| [n c] st IH]; simpl.
  - intros _ [c Hc]. discriminate.
  - destruct (c !! key) eqn:Ec; [discriminate |]. intros Hm Hr.
    destruct (String.eqb n name); simpl.
    + now rewrite lookup_insert_eq.
    + rewrite Ec. now apply IH.
Qed.

Lemma region_delete_region_eq name st :
  region name (delete_region name st) = None.
Proof.
  unfold delete_region.
  induction st as [| [n c] st IH]; simpl; [reflexivity |].
  destruct (String.eqb n name) eqn:E; simpl; [exact IH |].
  now rewrite E.
Qed.

Lemma region_delete_region_ne name other st :
  name <> other ->
  region name (delete_region other st) = region name st.
Proof.
  intros Hne. unfold delete_region.
  induction st as [| [n c] st IH]; simpl; [reflexivity |].
  destruct (String.eqb n other) eqn:E; simpl.
  - apply String.eqb_eq in E. subst n.
    destruct (String.eqb other name) eqn:E'; [| exact IH].
    apply String.eqb_eq in E'. congruence.
  - destruct (String.eqb n name); [reflexivity | exact IH].
Qed.

Lemma In_delete_region name other c st :
  In (name, c) (delete_region other st) <-> In (name, c) st /\ name <> other.
Proof.
  unfold delete_region. rewrite filter_In. simpl.
  rewrite negb_true_iff, String.eqb_neq. reflexivity.
Qed.

Lemma region_Some_In name c st :
  region name st = Some c -> In (name, c) st.
Proof.
  induction st as [| [n c'] st IH]; simpl; [discriminate |].
  destruct (String.eqb n name) eqn:E.
  - intros [= <-]. apply String.eqb_eq in E. subst n. now left.
  - intros H. right. now apply IH.
Qed.

(** The unified lookup finds nothing when no region holds the key. *)
Lemma match_all_None key st :
  match_all key st = None <-> (forall name c, In (name, c) st -> c !! key = None).
Proof.
  induction st as [| [n c] st IH]; simpl.
  - split; [intros _ ? ? [] | reflexivity].
  - destruct (c !! key) eqn:Ec.
    + split; [discriminate |]. intros H.
      specialize (H n c (or_introl eq_refl)). congruence.
    + rewrite IH. split.
      * intros H name c' [He | Hin]; [congruence | eauto].
      * intros H name c' Hin. eauto.
Qed.

End Storage.

(** ** Facts about chains *)

Lemma world_eta (w : World) : {| caches := caches w; trace := trace w |} = w.
Proof. now destruct w. Qed.

Lemma outcome_eta {A} (o : Outcome A) :
  {| settled := settled o; after := after o; started := started o |} = o.
Proof. now destruct o. Qed.

Lemma run_immediate_nil (w : World) :
  {| caches := caches w; trace := trace w ++ [] |} = w.
Proof. rewrite app_nil_r. apply world_eta. Qed.

(** The region opened by `caches.open` exists afterwards, and opening
    changes no lookup. *)
Lemma opened_region name st : is_Some (region name (opened name st)).
Proof.
  unfold opened. destruct (region name st) eqn:E.
  - rewrite E. eauto.
  - rewrite region_app, E. simpl. rewrite String.eqb_refl. eauto.
Qed.

Lemma opened_match_all name key st :
  match_all key (opened name st) = match_all key st.
Proof.
  unfold opened. destruct (region name st); [reflexivity |].
  rewrite match_all_app. simpl. rewrite lookup_empty.
  now destruct (match_all key st).
Qed.

(** ** The fetch listener, step by step *)

Lemma deliver_fetch_skipped env request w :
  skipped env request = true ->
  deliver env (FetchEvent request) w =
  {| response := None; at_settlement := w; left_over := [] |}.
Proof.
  intros Hs. unfold deliver, listener, on_fetch. rewrite Hs. simpl.
  now rewrite run_immediate_nil.
Qed.

Lemma deliver_fetch_handled env request w :
  skipped env request = false ->
  deliver env (FetchEvent request) w =
  let o := fetch_chain request env w in
  {| response := Some (settled o); at_settlement := after o; left_over := started o |}.
Proof.
  intros Hs. unfold deliver, listener, on_fetch. rewrite Hs. simpl.
  rewrite run_immediate_nil. now rewrite app_nil_r.
Qed.

Lemma fetch_chain_hit env request w r :
  match_all (resolve_url env (url request)) (caches w) = Some r ->
  fetch_chain request env w =
  {| settled := Resolved (Some r);
     after := {| caches := caches w;
                 trace := trace w ++ [ConsoleLog ("[SW] Serving from cache: " ++ url request)] |};
     started := [] |}.
Proof.
  intros H. unfold fetch_chain, then_, caches_match. simpl. now rewrite H.
Qed.

Lemma fetch_chain_miss env request w :
  match_all (resolve_url env (url request)) (caches w) = None ->
  fetch_chain request env w = fetch_from_network request env w.
Proof.
  intros H. unfold fetch_chain, then_, caches_match. simpl. rewrite H.
  apply outcome_eta.
Qed.

Lemma cacheable_spec r :
  cacheable r = true <-> status r = 200 /\ type r = "basic".
Proof.
  unfold cacheable. rewrite andb_true_iff, Z.eqb_eq, String.eqb_eq. reflexivity.
Qed.

Lemma guard_cacheable r :
  (negb (status r =? 200) || negb (String.eqb (type r) "basic"))%bool = negb (cacheable r).
Proof. unfold cacheable. now rewrite negb_andb. Qed.

Lemma fetch_from_network_cached env request w r :
  network env (url request) = Resolved r ->
  cacheable r = true ->
  fetch_from_network request env w =
  {| settled := Resolved (Some r);
     after := {| caches := caches w;
                 trace := trace w ++ [NetworkFetch (url request);
                                      ConsoleLog ("[SW] Fetched and cached: " ++ url request)] |};
     started := [detach (cache_fetched request r)] |}.
Proof.
  intros Hn Hc. unfold fetch_from_network, catch_, then_, fetch. simpl.
  rewrite Hn. simpl. rewrite guard_cacheable, Hc. simpl.
  now rewrite <- app_assoc.
Qed.

Lemma fetch_from_network_passed env request w r :
  network env (url request) = Resolved r ->
  cacheable r = false ->
  fetch_from_network request env w =
  {| settled := Resolved (Some r);
     after := {| caches := caches w; trace := trace w ++ [NetworkFetch (url request)] |};
     started := [] |}.
Proof.
  intros Hn Hc. unfold fetch_from_network, catch_, then_, fetch. simpl.
  rewrite Hn. simpl. rewrite guard_cacheable, Hc. reflexivity.
Qed.

Lemma fetch_from_network_offline env request w m :
  network env (url request) = Rejected m ->
  fetch_from_network request env w =
  {| settled := Resolved (if String.eqb (destination request) "document"
                          then match_all (resolve_url env "/index.html") (caches w)
                          else Some offline_response);
     after := {| caches := caches w; trace := trace w ++ [NetworkFetch (url request)] |};
     started := [] |}.
Proof.
  intros Hn. unfold fetch_from_network, catch_, then_, fetch. simpl.
  rewrite Hn. simpl. now destruct (String.eqb (destination request) "document").
Qed.

Lemma written_caches env request r w :
  caches (written env request r w) =
  if accepted request r
  then update_region DYNAMIC_CACHE_NAME
         (fun c => <[resolve_url env (url request) := r]> c)
         (opened DYNAMIC_CACHE_NAME (caches w))
  else opened DYNAMIC_CACHE_NAME (caches w).
Proof.
  unfold written, cache_fetched, then_, cache_put, accepted.
  cbn [caches_open settled after].
  destruct (String.eqb (method request) "GET"); [| reflexivity].
  destruct (storable r); reflexivity.
Qed.

Lemma written_region env request r w :
  accepted request r = true ->
  exists c, region DYNAMIC_CACHE_NAME (caches (written env request r w)) = Some c
            /\ c !! resolve_url env (url request) = Some r.
Proof.
  intros Ha. rewrite written_caches, Ha, region_update_region.
  destruct (opened_region DYNAMIC_CACHE_NAME (caches w)) as [c Hc].
  rewrite Hc. simpl. eexists. split; [reflexivity |].
  apply lookup_insert_eq.
Qed.

Lemma written_match_all env request r w :
  accepted request r = true ->
  match_all (resolve_url env (url request)) (caches w) = None ->
  match_all (resolve_url env (url request)) (caches (written env request r w)) = Some r.
Proof.
  intros Ha Hm. rewrite written_caches, Ha.
  apply match_all_written.
  - now rewrite opened_match_all.
  - apply opened_region.
Qed.

Lemma written_trace env request r w :
  trace (written env request r w) = trace w.
Proof.
  unfold written, cache_fetched, then_, cache_put.
  cbn [caches_open settled after].
  destruct (String.eqb (method request) "GET"); [| reflexivity].
  destruct (storable r); reflexivity.
Qed.

(** A write that is refused stores nothing: the DYNAMIC region, opened,
    holds what it held. *)
Lemma written_refused env request r w :
  accepted request r = false ->
  caches (written env request r w) = opened DYNAMIC_CACHE_NAME (caches w).
Proof. intros Ha. now rewrite written_caches, Ha. Qed.

Lemma accepted_spec request r :
  accepted request r = true <->
  method request = "GET" /\ status r <> 206 /\ ~ In "*" (vary r).
Proof.
  unfold accepted, storable.
  rewrite !andb_true_iff, !negb_true_iff, String.eqb_eq, Z.eqb_neq.
  rewrite <- includes_In. destruct (includes (vary r) "*"); intuition congruence.
Qed.

Lemma skipped_false env request :
  skipped env request = false <->
  url_origin (url request) = location_origin env \/ In (url request) STATIC_FILES.
Proof.
  unfold skipped. rewrite andb_false_iff, !negb_false_iff, String.eqb_eq, includes_In.
  reflexivity.
Qed.

Lemma skipped_true env request :
  skipped env request = true <->
  url_origin (url request) <> location_origin env /\ ~ In (url request) STATIC_FILES.
Proof.
  unfold skipped. rewrite andb_true_iff, !negb_true_iff, String.eqb_neq.
  rewrite <- includes_In. now destruct (includes STATIC_FILES (url request)).
Qed.

(** ** The fetch listener: claims *)

(** C2. A request of another origin whose URL is not in the static asset
    list gets no response from the listener and changes nothing; any other
    request is first looked up across all regions, and a stored response is
    returned at once: no network fetch, no region changed, nothing left
    running. *)
Theorem C2_skip_or_serve_from_cache (env : Env) (w : World) (request : Request) :
  (url_origin (url request) <> location_origin env ->
   ~ In (url request) STATIC_FILES ->
   respondWith (on_fetch env request) = None
   /\ deliver env (FetchEvent request) w =
      {| response := None; at_settlement := w; left_over := [] |})
  /\
  (url_origin (url request) = location_origin env \/ In (url request) STATIC_FILES ->
   respondWith (on_fetch env request) = Some (fetch_chain request)
   /\ forall r,
        match_all (resolve_url env (url request)) (caches w) = Some r ->
        let d := deliver env (FetchEvent request) w in
        response d = Some (Resolved (Some r))
        /\ network_fetches (trace (at_settlement d)) = network_fetches (trace w)
        /\ caches (at_settlement d) = caches w
        /\ left_over d = []).
Proof.
  split.
  - intros Ho Hs.
    assert (Hk : skipped env request = true) by (apply skipped_true; auto).
    split; [unfold on_fetch; now rewrite Hk | now apply deliver_fetch_skipped].
  - intros Hk. apply skipped_false in Hk.
    split; [unfold on_fetch; now rewrite Hk |].
    intros r Hr d. subst d.
    rewrite (deliver_fetch_handled _ _ _ Hk). cbv zeta.
    rewrite (fetch_chain_hit _ _ _ _ Hr). simpl.
    repeat split.
    unfold network_fetches. rewrite flat_map_app. simpl. now rewrite app_nil_r.
Qed.

Lemma C2_witness :
  (respondWith (on_fetch Scenario.online Scenario.tracker) = None
   /\ deliver Scenario.online (FetchEvent Scenario.tracker) Scenario.installed =
      {| response := None; at_settlement := Scenario.installed; left_over := [] |})
  /\
  response (deliver Scenario.online
              (FetchEvent {| url := "https://riprap.example/index.html";
                             destination := "document"; method := "GET" |})
              Scenario.installed)
  = Some (Resolved (Some Scenario.page)).
Proof.
  split.
  - apply (proj1 (C2_skip_or_serve_from_cache Scenario.online Scenario.installed
                    Scenario.tracker)).
    + vm_compute. discriminate.
    + vm_compute. intuition discriminate.
  - apply (proj2 (C2_skip_or_serve_from_cache Scenario.online Scenario.installed
                    {| url := "https://riprap.example/index.html";
                       destination := "document"; method := "GET" |})).
    + left. vm_compute. reflexivity.
    + vm_compute. reflexivity.
Defined.

(** C1 as stated fails: the listener hands every handled request to
    `cache.put`, which refuses a request that is not a GET request.  Here a
    POST to the worker's own origin, found in no region, is answered by the
    network with status 200 and type 'basic': the caller gets the response,
    and once the write has run the DYNAMIC region exists but is empty, and
    the lookup still finds nothing. *)
Lemma C1_counterexample :
  let d := deliver Scenario.online (FetchEvent Scenario.submit) Scenario.fresh in
  let w' := run_to_end Scenario.online (FetchEvent Scenario.submit) Scenario.fresh in
  skipped Scenario.online Scenario.submit = false
  /\ match_all (resolve_url Scenario.online (url Scenario.submit)) (caches Scenario.fresh)
     = None
  /\ network Scenario.online (url Scenario.submit) = Resolved Scenario.page
  /\ status Scenario.page = 200
  /\ type Scenario.page = "basic"
  /\ response d = Some (Resolved (Some Scenario.page))
  /\ region DYNAMIC_CACHE_NAME (caches w') = Some ∅
  /\ match_all (resolve_url Scenario.online (url Scenario.submit)) (caches w') = None.
Proof.
  cbv zeta. repeat split; vm_compute; reflexivity.
Qed.

(** C1, amended.  A handled request found in no region whose network fetch
    resolves with status 200 and type 'basic': the caller gets that
    response, and the listener has started exactly one more chain, the
    write of a copy of the response into the DYNAMIC region under the
    request's URL.  The write takes effect when the request is a GET
    request and the response carries no `Vary: *`, in whatever storage it
    lands; otherwise it is refused and the DYNAMIC region, opened, holds
    what it held.  With any response
    that is not of status 200 and type 'basic' the caller gets it
    unchanged, no region is changed and nothing is left running. *)
Theorem C1_cache_successful_basic_responses
    (env : Env) (w : World) (request : Request) (r : Response)
    (Hhandled : skipped env request = false)
    (Hmiss : match_all (resolve_url env (url request)) (caches w) = None)
    (Hnet : network env (url request) = Resolved r) :
  let d := deliver env (FetchEvent request) w in
  let w' := run_to_end env (FetchEvent request) w in
  (status r = 200 /\ type r = "basic" ->
   response d = Some (Resolved (Some r))
   /\ left_over d = [detach (cache_fetched request (clone r))]
   /\ (method request = "GET" -> ~ In "*" (vary r) ->
       (exists c, region DYNAMIC_CACHE_NAME (caches w') = Some c
                  /\ c !! resolve_url env (url request) = Some r)
       /\ forall landing,
            exists c,
              region DYNAMIC_CACHE_NAME
                (caches (snd (detach (cache_fetched request (clone r)) env landing)))
              = Some c
              /\ c !! resolve_url env (url request) = Some r)
   /\ (method request <> "GET" \/ In "*" (vary r) ->
       caches w' = opened DYNAMIC_CACHE_NAME (caches w)))
  /\
  (~ (status r = 200 /\ type r = "basic") ->
   response d = Some (Resolved (Some r))
   /\ left_over d = []
   /\ caches (at_settlement d) = caches w
   /\ caches w' = caches w).
Proof.
  intros d w'. subst d w'. unfold run_to_end.
  rewrite (deliver_fetch_handled _ _ _ Hhandled). cbv zeta.
  rewrite (fetch_chain_miss _ _ _ Hmiss).
  split; intros Hc.
  - pose proof Hc as [Hstatus _]. apply cacheable_spec in Hc.
    rewrite (fetch_from_network_cached _ _ _ _ Hnet Hc).
    cbn [response left_over at_settlement settled after started run_jobs fold_left].
    unfold detach, clone. cbn [snd].
    fold (written env request r
            {| caches := caches w;
               trace := trace w ++ [NetworkFetch (url request);
                                    ConsoleLog ("[SW] Fetched and cached: "
                                                ++ url request)] |}).
    split; [reflexivity |]. split; [reflexivity |]. split.
    + intros Hget Hvary.
      assert (Ha : accepted request r = true).
      { apply accepted_spec. repeat split; [assumption | lia | assumption]. }
      split; [now apply written_region |].
      intros landing. now apply written_region.
    + intros Hrefused. rewrite written_refused; [reflexivity |].
      destruct (accepted request r) eqn:Ea; [| reflexivity].
      apply accepted_spec in Ea. tauto.
  - assert (Hc' : cacheable r = false).
    { destruct (cacheable r) eqn:E; [| reflexivity].
      apply cacheable_spec in E. contradiction. }
    rewrite (fetch_from_network_passed _ _ _ _ Hnet Hc'). simpl.
    repeat split.
Qed.

Lemma C1_witness :
  (exists c,
     region DYNAMIC_CACHE_NAME
       (caches (run_to_end Scenario.online (FetchEvent Scenario.posts) Scenario.fresh)) = Some c
     /\ c !! "https://riprap.example/api/posts" = Some Scenario.page)
  /\ caches (run_to_end Scenario.negotiating (FetchEvent Scenario.posts) Scenario.fresh)
     = [(DYNAMIC_CACHE_NAME, ∅)]
  /\ caches (run_to_end Scenario.missing (FetchEvent Scenario.posts) Scenario.fresh) = [].
Proof.
  split; [| split].
  - destruct (proj1 (C1_cache_successful_basic_responses Scenario.online Scenario.fresh
                       Scenario.posts Scenario.page eq_refl eq_refl eq_refl)
                (conj eq_refl eq_refl)) as (_ & _ & Hstored & _).
    apply Hstored; [reflexivity | simpl; tauto].
  - destruct (proj1 (C1_cache_successful_basic_responses Scenario.negotiating
                       Scenario.fresh Scenario.posts Scenario.negotiated
                       eq_refl eq_refl eq_refl)
                (conj eq_refl eq_refl)) as (_ & _ & _ & Hrefused).
    apply Hrefused. right. simpl. tauto.
  - apply (proj2 (C1_cache_successful_basic_responses Scenario.missing Scenario.fresh
                    Scenario.posts Scenario.not_found eq_refl eq_refl eq_refl)).
    simpl. intros [H _]. discriminate.
Defined.

(** C3. A handled request found in no region whose network fetch rejects:
    a navigation (destination 'document') is answered with what the regions
    hold for '/index.html', so with the cached root document when there is
    one; any other request is answered with the synthetic response of
    status 503, status text "Service Unavailable" and body
    "Offline - Content not available". *)
Theorem C3_offline_fallback
    (env : Env) (w : World) (request : Request) (m : string)
    (Hhandled : skipped env request = false)
    (Hmiss : match_all (resolve_url env (url request)) (caches w) = None)
    (Hnet : network env (url request) = Rejected m) :
  let d := deliver env (FetchEvent request) w in
  (destination request = "document" ->
   response d = Some (Resolved (match_all (resolve_url env "/index.html") (caches w)))
   /\ forall root,
        match_all (resolve_url env "/index.html") (caches w) = Some root ->
        response d = Some (Resolved (Some root)))
  /\
  (destination request <> "document" ->
   exists r,
     response d = Some (Resolved (Some r))
     /\ status r = 503
     /\ statusText r = "Service Unavailable"
     /\ body r = "Offline - Content not available").
Proof.
  intros d. subst d.
  rewrite (deliver_fetch_handled _ _ _ Hhandled). cbv zeta.
  rewrite (fetch_chain_miss _ _ _ Hmiss).
  rewrite (fetch_from_network_offline _ _ _ _ Hnet).
  cbn [response settled].
  split; intros Hd.
  - apply String.eqb_eq in Hd. rewrite Hd.
    split; [reflexivity |]. intros root Hroot. now rewrite Hroot.
  - apply String.eqb_neq in Hd. rewrite Hd.
    exists offline_response. repeat split.
Qed.

Lemma C3_witness :
  response (deliver Scenario.offline (FetchEvent Scenario.navigation) Scenario.installed)
  = Some (Resolved (Some Scenario.page))
  /\ exists r,
       response (deliver Scenario.offline (FetchEvent Scenario.posts) Scenario.installed)
       = Some (Resolved (Some r))
       /\ status r = 503
       /\ statusText r = "Service Unavailable"
       /\ body r = "Offline - Content not available".
Proof.
  split.
  - apply (proj1 (C3_offline_fallback Scenario.offline Scenario.installed
                    Scenario.navigation "Failed to fetch" eq_refl eq_refl eq_refl)).
    + reflexivity.
    + vm_compute. reflexivity.
  - apply (proj2 (C3_offline_fallback Scenario.offline Scenario.installed
                    Scenario.posts "Failed to fetch" eq_refl eq_refl eq_refl)).
    simpl. discriminate.
Defined.

(** C9. A handled navigation found in no region whose network fetch
    rejects, while no region holds '/index.html': the response promise
    resolves with no response (the not-found of the lookup), not with the
    synthetic 503 response. *)
Theorem C9_navigation_without_cached_root
    (env : Env) (w : World) (request : Request) (m : string)
    (Hhandled : skipped env request = false)
    (Hmiss : match_all (resolve_url env (url request)) (caches w) = None)
    (Hnet : network env (url request) = Rejected m)
    (Hnav : destination request = "document")
    (Hroot : match_all (resolve_url env "/index.html") (caches w) = None) :
  response (deliver env (FetchEvent request) w) = Some (Resolved None)
  /\ response (deliver env (FetchEvent request) w) <> Some (Resolved (Some offline_response)).
Proof.
  rewrite (deliver_fetch_handled _ _ _ Hhandled). cbv zeta.
  rewrite (fetch_chain_miss _ _ _ Hmiss).
  rewrite (fetch_from_network_offline _ _ _ _ Hnet).
  cbn [response settled].
  apply String.eqb_eq in Hnav. rewrite Hnav, Hroot.
  split; [reflexivity | discriminate].
Qed.

Lemma C9_witness :
  response (deliver Scenario.offline (FetchEvent Scenario.navigation) Scenario.fresh)
  = Some (Resolved None)
  /\ response (deliver Scenario.offline (FetchEvent Scenario.navigation) Scenario.fresh)
     <> Some (Resolved (Some offline_response)).
Proof.
  exact (C9_navigation_without_cached_root Scenario.offline Scenario.fresh
           Scenario.navigation "Failed to fetch" eq_refl eq_refl eq_refl eq_refl eq_refl).
Defined.

(** C6 as stated fails: a same-origin POST answered with status 200 and
    type 'basic' is never stored, since `cache.put` refuses it.  Once the
    first handling and its write have run, the DYNAMIC region is empty, and
    the second identical request goes to the network again. *)
Lemma C6_counterexample :
  let w1 := run_to_end Scenario.online (FetchEvent Scenario.submit) Scenario.fresh in
  let d := deliver Scenario.online (FetchEvent Scenario.submit) w1 in
  url_origin (url Scenario.submit) = location_origin Scenario.online
  /\ match_all (resolve_url Scenario.online (url Scenario.submit)) (caches Scenario.fresh)
     = None
  /\ network Scenario.online (url Scenario.submit) = Resolved Scenario.page
  /\ status Scenario.page = 200
  /\ type Scenario.page = "basic"
  /\ region DYNAMIC_CACHE_NAME (caches w1) = Some ∅
  /\ network_fetches (trace w1) = ["https://riprap.example/api/posts"]
  /\ network_fetches (trace (at_settlement d))
     = ["https://riprap.example/api/posts"; "https://riprap.example/api/posts"].
Proof.
  cbv zeta. repeat split; vm_compute; reflexivity.
Qed.

(** C6, amended.  A same-origin GET request found in no region whose fetch
    answers with status 200, type 'basic' and no `Vary: *`: once the write
    the listener started has been done, the DYNAMIC region holds the
    response under the request's URL, and the same request is answered with
    that stored response while the network is not fetched from again.  The
    same holds when the write lands later, in any storage where the URL is
    still held by no region, and whatever the network has become. *)
Theorem C6_second_request_served_from_dynamic
    (env : Env) (w : World) (request : Request) (r : Response)
    (Hsame : url_origin (url request) = location_origin env)
    (Hget : method request = "GET")
    (Hmiss : match_all (resolve_url env (url request)) (caches w) = None)
    (Hnet : network env (url request) = Resolved r)
    (Hstatus : status r = 200)
    (Htype : type r = "basic")
    (Hvary : ~ In "*" (vary r)) :
  let w1 := run_to_end env (FetchEvent request) w in
  let d := deliver env (FetchEvent request) w1 in
  network_fetches (trace w1) = network_fetches (trace w) ++ [url request]
  /\ (exists c, region DYNAMIC_CACHE_NAME (caches w1) = Some c
                /\ c !! resolve_url env (url request) = Some r)
  /\ response d = Some (Resolved (Some r))
  /\ network_fetches (trace (at_settlement d)) = network_fetches (trace w1)
  /\ left_over d = []
  /\ (forall landing net,
        match_all (resolve_url env (url request)) (caches landing) = None ->
        let w2 := snd (detach (cache_fetched request (clone r)) env landing) in
        let d2 := deliver (with_network env net) (FetchEvent request) w2 in
        response d2 = Some (Resolved (Some r))
        /\ network_fetches (trace (at_settlement d2)) = network_fetches (trace w2)
        /\ left_over d2 = []).
Proof.
  intros w1 d.
  assert (Hhandled : skipped env request = false) by (apply skipped_false; now left).
  assert (Hc : cacheable r = true) by (apply cacheable_spec; now split).
  assert (Ha : accepted request r = true).
  { apply accepted_spec. repeat split; [assumption | lia | assumption]. }
  assert (Hw1 : w1 = written env request r
                       {| caches := caches w;
                          trace := trace w ++ [NetworkFetch (url request);
                                               ConsoleLog ("[SW] Fetched and cached: "
                                                           ++ url request)] |}).
  { subst w1. unfold run_to_end.
    rewrite (deliver_fetch_handled _ _ _ Hhandled). cbv zeta.
    rewrite (fetch_chain_miss _ _ _ Hmiss).
    rewrite (fetch_from_network_cached _ _ _ _ Hnet Hc). reflexivity. }
  assert (Hhit : match_all (resolve_url env (url request)) (caches w1) = Some r).
  { rewrite Hw1. now apply written_match_all. }
  split; [| split; [| split; [| split; [| split]]]].
  - rewrite Hw1, written_trace. cbn [trace].
    unfold network_fetches. rewrite flat_map_app. reflexivity.
  - rewrite Hw1. now apply written_region.
  - subst d. rewrite (deliver_fetch_handled _ _ _ Hhandled). cbv zeta.
    now rewrite (fetch_chain_hit _ _ _ _ Hhit).
  - subst d. rewrite (deliver_fetch_handled _ _ _ Hhandled). cbv zeta.
    rewrite (fetch_chain_hit _ _ _ _ Hhit). cbn [at_settlement after trace].
    unfold network_fetches. rewrite flat_map_app. simpl. now rewrite app_nil_r.
  - subst d. rewrite (deliver_fetch_handled _ _ _ Hhandled). cbv zeta.
    now rewrite (fetch_chain_hit _ _ _ _ Hhit).
  - intros landing net Hunheld w2 d2.
    assert (Hhit2 : match_all (resolve_url env (url request)) (caches w2) = Some r).
    { subst w2. unfold detach, clone. cbn [snd].
      fold (written env request r landing). now apply written_match_all. }
    assert (Hhandled2 : skipped (with_network env net) request = false) by exact Hhandled.
    subst d2. rewrite (deliver_fetch_handled _ _ _ Hhandled2). cbv zeta.
    rewrite (fetch_chain_hit (with_network env net) request w2 r Hhit2).
    cbn [response at_settlement left_over settled after started trace].
    repeat split.
    unfold network_fetches. rewrite flat_map_app. simpl. now rewrite app_nil_r.
Qed.

Lemma C6_witness :
  let w1 := run_to_end Scenario.online (FetchEvent Scenario.posts) Scenario.fresh in
  let d := deliver Scenario.online (FetchEvent Scenario.posts) w1 in
  network_fetches (trace w1) = ["https://riprap.example/api/posts"]
  /\ (exists c, region DYNAMIC_CACHE_NAME (caches w1) = Some c
                /\ c !! "https://riprap.example/api/posts" = Some Scenario.page)
  /\ response d = Some (Resolved (Some Scenario.page))
  /\ network_fetches (trace (at_settlement d)) = network_fetches (trace w1)
  /\ left_over d = []
  /\ response (deliver Scenario.offline (FetchEvent Scenario.posts)
                 (snd (detach (cache_fetched Scenario.posts Scenario.page) Scenario.online
                         Scenario.installed)))
     = Some (Resolved (Some Scenario.page)).
Proof.
  destruct (C6_second_request_served_from_dynamic Scenario.online Scenario.fresh
              Scenario.posts Scenario.page eq_refl eq_refl eq_refl eq_refl eq_refl eq_refl
              ltac:(simpl; tauto))
    as (H1 & H2 & H3 & H4 & H5 & H6).
  cbv zeta. repeat (split; [assumption |]).
  exact (proj1 (H6 Scenario.installed (fun _ => Rejected "Failed to fetch") eq_refl)).
Defined.

(** ** The activate listener *)

Lemma filter_filter {A} (P Q : A -> bool) (l : list A) :
  List.filter P (List.filter Q l) = List.filter (fun x => Q x && P x) l.
Proof.
  induction l as [| x l IH]; simpl; [reflexivity |].
  destruct (Q x); simpl; [destruct (P x) |]; now rewrite IH.
Qed.

Lemma delete_old_current name env w :
  current name = true ->
  delete_old name env w = {| settled := Resolved tt; after := w; started := [] |}.
Proof.
  unfold current, delete_old. intros H.
  rewrite <- negb_orb, H. reflexivity.
Qed.

Lemma delete_old_stale name env w :
  current name = false ->
  delete_old name env w =
  {| settled := Resolved tt;
     after := {| caches := delete_region name (caches w);
                 trace := trace w ++ [ConsoleLog ("[SW] Deleting old cache: " ++ name)] |};
     started := [] |}.
Proof.
  unfold current, delete_old. intros H.
  rewrite <- negb_orb, H. reflexivity.
Qed.

(** `Promise.all` over the deletions: what is left of the storage, and
    what was logged. *)
Lemma all_delete_old names : forall env w,
  let o := all (List.map delete_old names) env w in
  settled o = Resolved (List.map (fun _ => tt) names)
  /\ caches (after o) =
     List.filter (fun nc => current (fst nc) || negb (includes names (fst nc))) (caches w)
  /\ trace (after o) =
     trace w ++ List.map (fun n => ConsoleLog ("[SW] Deleting old cache: " ++ n))
                  (List.filter (fun n => negb (current n)) names)
  /\ started o = [].
Proof.
  induction names as [| n names IH]; intros env w; cbn [List.map all].
  - cbn. repeat split.
    + rewrite <- (filter_ext (fun _ => true)).
      * induction (caches w) as [| x l IHl]; simpl; [reflexivity | now rewrite <- IHl].
      * intros a. now rewrite orb_true_r.
    + now rewrite app_nil_r.
  - cbv zeta. destruct (current n) eqn:En.
    + rewrite (delete_old_current _ _ _ En). cbn [settled after started].
      destruct (IH env w) as (Hs & Hc & Ht & Hj).
      rewrite Hs, Hc, Ht, Hj. cbn [List.filter]. rewrite En. cbn [negb].
      repeat split.
      apply filter_ext. intros [m c]. cbn [fst]. unfold includes. cbn [existsb].
      destruct (String.eqb m n) eqn:Em; [| reflexivity].
      apply String.eqb_eq in Em. subst m. now rewrite En.
    + rewrite (delete_old_stale _ _ _ En). cbn [settled after started].
      set (w1 := {| caches := delete_region n (caches w);
                    trace := trace w ++ [ConsoleLog ("[SW] Deleting old cache: " ++ n)] |}).
      destruct (IH env w1) as (Hs & Hc & Ht & Hj).
      rewrite Hs, Hc, Ht, Hj. unfold w1. cbn [caches trace List.filter].
      rewrite En. cbn [negb List.map].
      repeat split.
      * unfold delete_region. rewrite filter_filter.
        apply filter_ext. intros [m c]. cbn [fst]. unfold includes. cbn [existsb].
        destruct (String.eqb m n) eqn:Em; cbn [negb andb orb]; [| reflexivity].
        apply String.eqb_eq in Em. subst m. now rewrite En.
      * now rewrite <- app_assoc.
Qed.

Lemma filter_enumerated (st : list (string * gmap string Response)) :
  List.filter (fun nc => current (fst nc) || negb (includes (List.map fst st) (fst nc))) st
  = List.filter (fun nc => current (fst nc)) st.
Proof.
  apply filter_ext_in. intros nc Hin.
  assert (H : includes (List.map fst st) (fst nc) = true).
  { apply includes_In. now apply in_map. }
  rewrite H. now rewrite orb_false_r.
Qed.

Lemma activate_cleanup_spec env w :
  let o := activate_cleanup env w in
  (exists l, settled o = Resolved l)
  /\ caches (after o) = List.filter (fun nc => current (fst nc)) (caches w)
  /\ trace (after o) =
     trace w ++ List.map (fun n => ConsoleLog ("[SW] Deleting old cache: " ++ n))
                  (List.filter (fun n => negb (current n)) (List.map fst (caches w)))
  /\ started o = [].
Proof.
  unfold activate_cleanup, then_, caches_keys. cbn [settled after started].
  destruct (all_delete_old (List.map fst (caches w)) env w) as (Hs & Hc & Ht & Hj).
  rewrite Hs, Hc, Ht, Hj. rewrite filter_enumerated. eauto.
Qed.

Lemma current_spec name :
  current name = true <-> name = STATIC_CACHE_NAME \/ name = DYNAMIC_CACHE_NAME.
Proof.
  unfold current. now rewrite orb_true_iff, !String.eqb_eq.
Qed.

Lemma deliver_activate env w :
  deliver env ActivateEvent w =
  let w0 := {| caches := caches w;
               trace := trace w ++ [ConsoleLog "[SW] Activating service worker..."] |} in
  let o := activate_chain env w0 in
  {| response := None; at_settlement := after o; left_over := started o ++ [] |}.
Proof.
  unfold deliver, listener, on_activate.
  cbn [immediate respondWith waitUntil unreturned settle_waited app]. reflexivity.
Qed.

(** C5. When what the activate listener gave to `waitUntil` has settled,
    every region of the storage is called by the current STATIC name or the
    current DYNAMIC name (the regions with those names are kept as they
    were, every other enumerated region is gone), and `clients.claim()` is
    the last thing done: the storage it finds is already the cleaned one. *)
Theorem C5_activate_removes_stale_regions (env : Env) (w : World) :
  let d := deliver env ActivateEvent w in
  let cleaned :=
    activate_cleanup env
      {| caches := caches w;
         trace := trace w ++ [ConsoleLog "[SW] Activating service worker..."] |} in
  (forall name c, In (name, c) (caches (at_settlement d)) ->
                  name = STATIC_CACHE_NAME \/ name = DYNAMIC_CACHE_NAME)
  /\ caches (at_settlement d) = List.filter (fun nc => current (fst nc)) (caches w)
  /\ (forall name, name <> STATIC_CACHE_NAME -> name <> DYNAMIC_CACHE_NAME ->
                   region name (caches (at_settlement d)) = None)
  /\ caches (after cleaned) = caches (at_settlement d)
  /\ (exists logs,
        trace (after cleaned) = trace w ++ logs
        /\ (forall e, In e logs -> exists text, e = ConsoleLog text)
        /\ trace (at_settlement d) = trace w ++ logs ++ [ClientsClaim])
  /\ left_over d = [].
Proof.
  intros d cleaned. subst d. rewrite deliver_activate. cbv zeta.
  unfold activate_chain, then_, clients_claim.
  fold cleaned.
  destruct (activate_cleanup_spec env
              {| caches := caches w;
                 trace := trace w ++ [ConsoleLog "[SW] Activating service worker..."] |})
    as ([l Hs] & Hc & Ht & Hj).
  fold cleaned in Hs, Hc, Ht, Hj. cbn [caches trace] in Hc, Ht.
  rewrite Hs. cbn [at_settlement left_over settled after started perform caches trace].
  rewrite Hj, Hc.
  assert (Hnames : forall name c,
             In (name, c) (List.filter (fun nc => current (fst nc)) (caches w)) ->
             name = STATIC_CACHE_NAME \/ name = DYNAMIC_CACHE_NAME).
  { intros name c Hin. apply filter_In in Hin. destruct Hin as [_ Hcur].
    now apply current_spec in Hcur. }
  repeat split; try reflexivity.
  - exact Hnames.
  - intros name Hs' Hd'.
    destruct (region name (List.filter (fun nc => current (fst nc)) (caches w)))
      as [c |] eqn:Er; [| reflexivity].
    apply region_Some_In in Er.
    destruct (Hnames _ _ Er); contradiction.
  - rewrite Ht, <- app_assoc. eexists. split; [reflexivity |]. split.
    + intros e [<- | H]; [eauto |].
      apply in_map_iff in H. destruct H as [n [<- _]]. eauto.
    + now rewrite <- !app_assoc.
Qed.

Lemma C5_witness :
  caches (at_settlement (deliver Scenario.online ActivateEvent Scenario.upgraded))
  = [(STATIC_CACHE_NAME, ∅)]
  /\ region "shorelore-static-v0.9.0"
       (caches (at_settlement (deliver Scenario.online ActivateEvent Scenario.upgraded)))
     = None.
Proof.
  destruct (C5_activate_removes_stale_regions Scenario.online Scenario.upgraded)
    as (_ & Hc & Hr & _).
  split; [exact Hc |].
  apply Hr; discriminate.
Defined.

(** ** Bulk population *)

Lemma fetched_all_spec env targets : forall l,
  fetched_all env targets = Resolved l ->
  List.map fst l = targets
  /\ forall t r, In (t, r) l ->
       network env t = Resolved r /\ ok r = true /\ storable r = true.
Proof.
  induction targets as [| t targets IH]; simpl; intros l.
  - intros [= <-]. split; [reflexivity | intros ? ? []].
  - destruct (network env t) as [r |] eqn:En; [| discriminate].
    destruct (ok r && storable r) eqn:Eo; [| discriminate].
    apply andb_true_iff in Eo.
    destruct (fetched_all env targets) as [l' |]; [| discriminate].
    intros [= <-]. destruct (IH l' eq_refl) as [Hk Hv].
    split; [simpl; now rewrite Hk |].
    intros t' r' [[= <- <-] | Hin]; [tauto | now apply Hv].
Qed.

(** One asset whose fetch rejects, or answers with a status that is not
    `ok` or with a response that is not storable, fails the whole
    population. *)
Lemma fetched_all_fails env targets t :
  In t targets ->
  (forall r, network env t = Resolved r -> ok r && storable r = false) ->
  exists m, fetched_all env targets = Rejected m.
Proof.
  induction targets as [| t' targets IH]; simpl; [intros [] |].
  intros Hin Hbad.
  destruct (network env t') as [r |] eqn:En; [| eauto].
  destruct (ok r && storable r) eqn:Eo; [| eauto].
  destruct Hin as [-> | Hin].
  - rewrite (Hbad r En) in Eo. discriminate.
  - destruct (IH Hin Hbad) as [m Hm]. rewrite Hm. eauto.
Qed.

Lemma populated_lookup_notin l : forall (c : gmap string Response) key,
  ~ In key (List.map fst l) -> populated l c !! key = c !! key.
Proof.
  unfold populated.
  induction l as [| [k r] l IH]; simpl; intros c key Hn; [reflexivity |].
  rewrite IH by tauto. apply lookup_insert_ne. tauto.
Qed.

Lemma populated_lookup_in l : forall (c : gmap string Response) key v,
  In key (List.map fst l) ->
  (forall r, In (key, r) l -> r = v) ->
  populated l c !! key = Some v.
Proof.
  induction l as [| [k r] l IH]; simpl; intros c key v Hin Hv; [contradiction |].
  destruct (in_dec string_dec key (List.map fst l)) as [Hl | Hl].
  - change (populated l (<[k := r]> c) !! key = Some v). apply IH; auto.
  - change (populated l (<[k := r]> c) !! key = Some v).
    rewrite populated_lookup_notin by assumption.
    destruct Hin as [-> | Hin]; [| contradiction].
    rewrite (Hv r) by now left. apply lookup_insert_eq.
Qed.

(** After a population that succeeded, the region holds, for every target,
    the response the network gave for it, and nothing it did not hold
    before for any other key. *)
Lemma populated_fetched env targets l (c : gmap string Response) :
  fetched_all env targets = Resolved l ->
  (forall t, In t targets ->
             exists r, network env t = Resolved r /\ populated l c !! t = Some r)
  /\ (forall key, ~ In key targets -> populated l c !! key = c !! key).
Proof.
  intros Hf. destruct (fetched_all_spec _ _ _ Hf) as [Hk Hv]. split.
  - intros t Hin. rewrite <- Hk in Hin.
    destruct (proj1 (in_map_iff _ _ _) Hin) as [[t' r] [Ht Hp]]. simpl in Ht. subst t'.
    exists r. split; [now apply Hv |].
    apply populated_lookup_in; [assumption |].
    intros r' Hr'. apply Hv in Hr', Hp. destruct Hr' as [Hr' _], Hp as [Hp _]. congruence.
  - intros key Hn. apply populated_lookup_notin. now rewrite Hk.
Qed.

Lemma cache_addAll_spec cache urls env w :
  cache_addAll cache urls env w =
  let targets := List.map (resolve_url env) urls in
  match fetched_all env targets with
  | Resolved l =>
      {| settled := Resolved tt;
         after := {| caches := update_region cache (populated l) (caches w);
                     trace := trace w ++ List.map NetworkFetch targets |};
         started := [] |}
  | Rejected m =>
      {| settled := Rejected m;
         after := {| caches := caches w;
                     trace := trace w ++ List.map NetworkFetch targets |};
         started := [] |}
  end.
Proof.
  unfold cache_addAll. cbv zeta.
  now destruct (fetched_all env (List.map (resolve_url env) urls)).
Qed.

Lemma update_region_opened_fresh name f st :
  region name st = None ->
  update_region name f (opened name st) = st ++ [(name, f ∅)].
Proof.
  intros H. unfold opened. rewrite H.
  rewrite update_region_app_r by assumption. simpl. now rewrite String.eqb_refl.
Qed.

(** ** The install listener *)

Lemma install_chain_spec env w :
  install_chain env w =
  let fetches := List.map NetworkFetch (static_targets env) in
  match fetched_all env (static_targets env) with
  | Resolved l =>
      {| settled := Resolved tt;
         after := {| caches := update_region STATIC_CACHE_NAME (populated l)
                                 (opened STATIC_CACHE_NAME (caches w));
                     trace := (trace w ++ [ConsoleLog "[SW] Caching static files"])
                              ++ fetches |};
         started := [] |}
  | Rejected m =>
      {| settled := Resolved tt;
         after := {| caches := opened STATIC_CACHE_NAME (caches w);
                     trace := ((trace w ++ [ConsoleLog "[SW] Caching static files"])
                               ++ fetches)
                              ++ [ConsoleError ("[SW] Failed to cache static files: " ++ m)] |};
         started := [] |}
  end.
Proof.
  unfold install_chain, catch_, then_.
  cbn [caches_open perform settled after started set_caches caches trace app].
  rewrite cache_addAll_spec. cbv zeta. fold (static_targets env).
  destruct (fetched_all env (static_targets env)); reflexivity.
Qed.

Lemma deliver_install env w :
  deliver env InstallEvent w =
  let o := install_chain env
             {| caches := caches w;
                trace := trace w ++ [ConsoleLog "[SW] Installing service worker...";
                                     SkipWaiting] |} in
  {| response := None; at_settlement := after o; left_over := started o ++ [] |}.
Proof.
  unfold deliver, listener, on_install.
  cbn [immediate respondWith waitUntil unreturned settle_waited app]. reflexivity.
Qed.

(** C8. The chain the install listener gives to `waitUntil` always
    resolves, and `skipWaiting()` is called whatever the population does.
    When the population of the STATIC region fails (one asset whose fetch
    rejects is enough), the failure is logged with `console.error` and
    nothing is stored. *)
Theorem C8_install_swallows_population_failure (env : Env) (w : World) :
  let d := deliver env InstallEvent w in
  waitUntil on_install = [install_chain]
  /\ (forall w0, settled (install_chain env w0) = Resolved tt)
  /\ In SkipWaiting (immediate on_install)
  /\ In SkipWaiting (trace (at_settlement d))
  /\ left_over d = []
  /\ (forall asset m,
        In asset STATIC_FILES ->
        network env (resolve_url env asset) = Rejected m ->
        exists m', fetched_all env (static_targets env) = Rejected m')
  /\ (forall m,
        fetched_all env (static_targets env) = Rejected m ->
        In (ConsoleError ("[SW] Failed to cache static files: " ++ m))
           (trace (at_settlement d))
        /\ caches (at_settlement d) = opened STATIC_CACHE_NAME (caches w)).
Proof.
  intros d. subst d. rewrite deliver_install. cbv zeta.
  split; [reflexivity |].
  split.
  { intros w0. rewrite install_chain_spec. cbv zeta.
    now destruct (fetched_all env (static_targets env)). }
  split; [simpl; auto |].
  rewrite install_chain_spec. cbv zeta.
  split; [| split; [| split]].
  - destruct (fetched_all env (static_targets env));
      cbn [at_settlement after trace]; rewrite !in_app_iff; simpl; tauto.
  - now destruct (fetched_all env (static_targets env)).
  - intros asset m Hin Hnet.
    apply (fetched_all_fails env (static_targets env) (resolve_url env asset)).
    + unfold static_targets. now apply in_map.
    + intros r Hr. congruence.
  - intros m Hm. rewrite Hm. cbn [at_settlement after trace caches].
    split; [| reflexivity].
    rewrite in_app_iff. right. now left.
Qed.

Lemma C8_witness :
  In (ConsoleError "[SW] Failed to cache static files: Failed to fetch")
     (trace (at_settlement (deliver Scenario.offline InstallEvent Scenario.fresh)))
  /\ caches (at_settlement (deliver Scenario.offline InstallEvent Scenario.fresh))
     = [(STATIC_CACHE_NAME, ∅)].
Proof.
  apply (proj2 (proj2 (proj2 (proj2 (proj2 (proj2
           (C8_install_swallows_population_failure Scenario.offline Scenario.fresh)))))))
    with (m := "Failed to fetch").
  reflexivity.
Defined.

(** ** The message listener *)

Lemma posted_app (a b : list Effect) : posted (a ++ b) = posted a ++ posted b.
Proof. unfold posted. apply flat_map_app. Qed.

Lemma posted_fetches (targets : list string) : posted (List.map NetworkFetch targets) = [].
Proof. induction targets; simpl; auto. Qed.

(** The storage after the two deletions of sw.js:167-168. *)
Lemma region_static_after_deletes (st : list (string * gmap string Response)) :
  region STATIC_CACHE_NAME
    (delete_region DYNAMIC_CACHE_NAME (delete_region STATIC_CACHE_NAME st)) = None.
Proof.
  rewrite region_delete_region_ne by discriminate.
  apply region_delete_region_eq.
Qed.

Lemma region_dynamic_after_deletes (st : list (string * gmap string Response)) :
  region DYNAMIC_CACHE_NAME
    (delete_region DYNAMIC_CACHE_NAME (delete_region STATIC_CACHE_NAME st)) = None.
Proof. apply region_delete_region_eq. Qed.

(** The whole chain of sw.js:167-180, for each outcome of the population
    and for an event with or without a reply port. *)
Lemma update_cache_spec ports env w :
  update_cache ports env w =
  let kept := delete_region DYNAMIC_CACHE_NAME
                (delete_region STATIC_CACHE_NAME (caches w)) in
  let fetches := List.map NetworkFetch (static_targets env) in
  let no_port := "Cannot read properties of undefined (reading 'postMessage')" in
  match fetched_all env (static_targets env), ports with
  | Resolved l, port :: _ =>
      {| settled := Resolved tt;
         after := {| caches := kept ++ [(STATIC_CACHE_NAME, populated l ∅)];
                     trace := (trace w ++ fetches)
                              ++ [PostMessage port {| success := true; error := None |}] |};
         started := [] |}
  | Resolved l, [] =>
      {| settled := Rejected no_port;
         after := {| caches := kept ++ [(STATIC_CACHE_NAME, populated l ∅)];
                     trace := trace w ++ fetches |};
         started := [] |}
  | Rejected m, port :: _ =>
      {| settled := Resolved tt;
         after := {| caches := kept ++ [(STATIC_CACHE_NAME, ∅)];
                     trace := (trace w ++ fetches)
                              ++ [PostMessage port {| success := false; error := Some m |}] |};
         started := [] |}
  | Rejected m, [] =>
      {| settled := Rejected no_port;
         after := {| caches := kept ++ [(STATIC_CACHE_NAME, ∅)];
                     trace := trace w ++ fetches |};
         started := [] |}
  end.
Proof.
  unfold update_cache, catch_, then_.
  cbn [caches_delete caches_open settled after started set_caches caches trace app].
  rewrite cache_addAll_spec. cbv zeta. fold (static_targets env).
  destruct (fetched_all env (static_targets env)); destruct ports;
    cbn [settled after started caches trace set_caches ports0_postMessage perform
         reject app];
    rewrite ?update_region_opened_fresh by apply region_static_after_deletes;
    unfold opened; rewrite ?region_static_after_deletes;
    rewrite ?app_nil_r; reflexivity.
Qed.

Lemma deliver_update_cache env ports w :
  deliver env (MessageEvent (Some "UPDATE_CACHE") ports) w =
  {| response := None; at_settlement := w; left_over := [detach (update_cache ports)] |}.
Proof.
  unfold deliver, listener, on_message.
  cbn. now rewrite run_immediate_nil.
Qed.

Lemma run_update_cache env ports w :
  run_to_end env (MessageEvent (Some "UPDATE_CACHE") ports) w =
  after (update_cache ports env w).
Proof.
  unfold run_to_end. rewrite deliver_update_cache. reflexivity.
Qed.

(** C4 as stated fails: a region that is neither STATIC nor DYNAMIC
    survives the command, and the unified lookup still answers from it.
    Here the update succeeds ({success: true} is posted), the URL was held
    by the DYNAMIC region and is no static asset, and the lookup finds it
    afterwards. *)
Lemma C4_counterexample :
  let key := "https://riprap.example/api/posts" in
  let w := Scenario.with_other_region in
  let w' := run_to_end Scenario.online (MessageEvent (Some "UPDATE_CACHE") [1%nat]) w in
  posted (trace w') = [(1%nat, {| success := true; error := None |})]
  /\ (exists c, region DYNAMIC_CACHE_NAME (caches w) = Some c /\ c !! key = Some Scenario.page)
  /\ ~ In key (static_targets Scenario.online)
  /\ match_all key (caches w') = Some Scenario.page
  /\ match_all key (caches w') <> None.
Proof.
  cbv zeta. split; [vm_compute; reflexivity |].
  split; [eexists; split; [vm_compute; reflexivity | vm_compute; reflexivity] |].
  split; [vm_compute; intuition discriminate |].
  split; [vm_compute; reflexivity | vm_compute; discriminate].
Qed.

(** C4, amended.  For an UPDATE_CACHE message with a reply port, the chain
    leaves the storage as: the old storage without the STATIC and DYNAMIC
    regions, then a new STATIC region.  If every asset was fetched,
    {success: true} is posted to the first port, the STATIC region holds
    the fetched response of every static asset and nothing else, no DYNAMIC
    region exists, every static asset is found by the unified lookup, and a
    URL that is no static asset and is held by no region of another name is
    not found.  If the population failed with message [m],
    {success: false, error: m} is posted to the first port. *)
Theorem C4_update_cache_with_reply_port
    (env : Env) (w : World) (port : nat) (ports : list nat) :
  let w' := run_to_end env (MessageEvent (Some "UPDATE_CACHE") (port :: ports)) w in
  let kept := delete_region DYNAMIC_CACHE_NAME
                (delete_region STATIC_CACHE_NAME (caches w)) in
  (forall l,
     fetched_all env (static_targets env) = Resolved l ->
     posted (trace w') = posted (trace w) ++ [(port, {| success := true; error := None |})]
     /\ caches w' = kept ++ [(STATIC_CACHE_NAME, populated l ∅)]
     /\ region DYNAMIC_CACHE_NAME (caches w') = None
     /\ (exists c,
           region STATIC_CACHE_NAME (caches w') = Some c
           /\ (forall asset, In asset STATIC_FILES ->
                 exists r, network env (resolve_url env asset) = Resolved r
                           /\ c !! resolve_url env asset = Some r)
           /\ (forall key, ~ In key (static_targets env) -> c !! key = None))
     /\ (forall asset, In asset STATIC_FILES ->
           is_Some (match_all (resolve_url env asset) (caches w')))
     /\ (forall key,
           ~ In key (static_targets env) ->
           (forall name c, In (name, c) (caches w) ->
                           name <> STATIC_CACHE_NAME -> name <> DYNAMIC_CACHE_NAME ->
                           c !! key = None) ->
           match_all key (caches w') = None))
  /\
  (forall m,
     fetched_all env (static_targets env) = Rejected m ->
     posted (trace w') = posted (trace w)
                         ++ [(port, {| success := false; error := Some m |})]
     /\ caches w' = kept ++ [(STATIC_CACHE_NAME, ∅)]).
Proof.
  intros w' kept. subst w'. rewrite run_update_cache, update_cache_spec. cbv zeta.
  fold kept. split.
  - intros l Hl. rewrite Hl. cbn [after caches trace].
    destruct (populated_fetched env (static_targets env) l ∅ Hl) as [Hin Hout].
    assert (Hstatic : forall asset, In asset STATIC_FILES ->
              exists r, network env (resolve_url env asset) = Resolved r
                        /\ populated l ∅ !! resolve_url env asset = Some r).
    { intros asset Ha. apply Hin. unfold static_targets. now apply in_map. }
    split; [| split; [| split; [| split; [| split]]]].
    + rewrite !posted_app, posted_fetches, app_nil_r. reflexivity.
    + reflexivity.
    + rewrite region_app. unfold kept. rewrite region_dynamic_after_deletes.
      reflexivity.
    + exists (populated l ∅). split; [| split].
      * rewrite region_app. unfold kept. rewrite region_static_after_deletes.
        reflexivity.
      * exact Hstatic.
      * intros key Hk. rewrite Hout by assumption. apply lookup_empty.
    + intros asset Ha. rewrite match_all_app.
      destruct (match_all (resolve_url env asset) kept); [eauto |].
      destruct (Hstatic asset Ha) as [r [_ Hr]]. simpl. rewrite Hr. eauto.
    + intros key Hk Hothers. rewrite match_all_app.
      assert (Hkept : match_all key kept = None).
      { apply match_all_None. intros name c Hc. unfold kept in Hc.
        apply In_delete_region in Hc. destruct Hc as [Hc Hd].
        apply In_delete_region in Hc. destruct Hc as [Hc Hs].
        now apply (Hothers name c). }
      rewrite Hkept. simpl. rewrite Hout by assumption. now rewrite lookup_empty.
  - intros m Hm. rewrite Hm. cbn [after caches trace].
    split; [| reflexivity].
    rewrite !posted_app, posted_fetches, app_nil_r. reflexivity.
Qed.

Lemma C4_witness :
  let w' := run_to_end Scenario.online (MessageEvent (Some "UPDATE_CACHE") [1%nat])
              Scenario.upgraded in
  posted (trace w') = [(1%nat, {| success := true; error := None |})]
  /\ region DYNAMIC_CACHE_NAME (caches w') = None
  /\ is_Some (match_all "https://riprap.example/index.html" (caches w'))
  /\ posted (trace (run_to_end Scenario.offline (MessageEvent (Some "UPDATE_CACHE") [1%nat])
                      Scenario.upgraded))
     = [(1%nat, {| success := false; error := Some "Failed to fetch" |})].
Proof.
  cbv zeta.
  destruct (fetched_all Scenario.online (static_targets Scenario.online)) as [l |] eqn:El;
    [| vm_compute in El; discriminate].
  destruct (proj1 (C4_update_cache_with_reply_port Scenario.online Scenario.upgraded 1%nat [])
              l El) as (Hp & _ & Hd & _ & Hs & _).
  split; [exact Hp |]. split; [exact Hd |].
  split; [apply (Hs "/index.html"); simpl; auto |].
  apply (proj2 (C4_update_cache_with_reply_port Scenario.offline Scenario.upgraded 1%nat [])
           "Failed to fetch").
  reflexivity.
Defined.

(** C10. For an UPDATE_CACHE message without a reply port, whether the
    population succeeds or fails, the chain ends rejected by the read of
    `postMessage` on the missing first port, and no reply is posted. *)
Theorem C10_update_cache_without_reply_port (env : Env) (w : World) :
  let o := update_cache [] env w in
  ports0_postMessage [] {| success := true; error := None |} env w
    = reject "Cannot read properties of undefined (reading 'postMessage')" env w
  /\ (forall m, ports0_postMessage [] {| success := false; error := Some m |} env w
                = reject "Cannot read properties of undefined (reading 'postMessage')" env w)
  /\ settled o = Rejected "Cannot read properties of undefined (reading 'postMessage')"
  /\ posted (trace (after o)) = posted (trace w)
  /\ posted (trace (run_to_end env (MessageEvent (Some "UPDATE_CACHE") []) w))
     = posted (trace w).
Proof.
  intros o. subst o. rewrite run_update_cache, update_cache_spec. cbv zeta.
  split; [reflexivity |]. split; [reflexivity |].
  destruct (fetched_all env (static_targets env)); cbn [settled after trace];
    rewrite posted_app, posted_fetches, app_nil_r; auto.
Qed.

(** ** What the platform is told to wait for *)

Lemma install_chain_started env w : started (install_chain env w) = [].
Proof.
  rewrite install_chain_spec. cbv zeta.
  now destruct (fetched_all env (static_targets env)).
Qed.

Lemma activate_chain_started env w : started (activate_chain env w) = [].
Proof.
  unfold activate_chain, then_, clients_claim.
  destruct (activate_cleanup_spec env w) as ([l Hs] & _ & _ & Hj).
  rewrite Hs. cbn [started perform]. rewrite Hj. reflexivity.
Qed.

Lemma syncOfflinePosts_started env w : started (syncOfflinePosts env w) = [].
Proof.
  unfold syncOfflinePosts, catch_, then_, openDB, transaction.
  cbn [perform settled after started app].
  destruct (indexedDB_open env) as [db |]; cbn [settled after started app];
    [destruct (includes db "offline_posts") |]; reflexivity.
Qed.

Lemma showNotification_started title text env w :
  started (showNotification title text env w) = [].
Proof.
  unfold showNotification. now destruct (showNotification_allowed env).
Qed.

Lemma fetch_chain_caches request env w :
  caches (after (fetch_chain request env w)) = caches w.
Proof.
  destruct (match_all (resolve_url env (url request)) (caches w)) as [r |] eqn:Em.
  - now rewrite (fetch_chain_hit _ _ _ _ Em).
  - rewrite (fetch_chain_miss _ _ _ Em).
    destruct (network env (url request)) as [r | m] eqn:En.
    + destruct (cacheable r) eqn:Ec.
      * now rewrite (fetch_from_network_cached _ _ _ _ En Ec).
      * now rewrite (fetch_from_network_passed _ _ _ _ En Ec).
    + now rewrite (fetch_from_network_offline _ _ _ _ En).
Qed.

(** C7 as stated fails: for a request answered by the network with status
    200 and type 'basic', the write into the DYNAMIC region is a chain the
    listener starts and hands to nobody.  When everything the platform was
    told to wait for has settled, the DYNAMIC region does not exist yet;
    the entry is there only if the chain left on its own is run. *)
Lemma C7_counterexample :
  let d := deliver Scenario.online (FetchEvent Scenario.posts) Scenario.fresh in
  response d = Some (Resolved (Some Scenario.page))
  /\ left_over d = [detach (cache_fetched Scenario.posts Scenario.page)]
  /\ region DYNAMIC_CACHE_NAME (caches (at_settlement d)) = None
  /\ (exists c,
        region DYNAMIC_CACHE_NAME
          (caches (run_jobs Scenario.online (left_over d) (at_settlement d))) = Some c
        /\ c !! "https://riprap.example/api/posts" = Some Scenario.page)
  /\ ~ (forall env event w, left_over (deliver env event w) = []).
Proof.
  cbv zeta. split; [reflexivity |]. split; [reflexivity |]. split; [reflexivity |].
  split.
  - eexists. split; [vm_compute; reflexivity | vm_compute; reflexivity].
  - intros H.
    specialize (H Scenario.online (FetchEvent Scenario.posts) Scenario.fresh).
    discriminate H.
Qed.

(** C7, amended.  The chains of the install, activate, sync, push and
    notificationclick listeners are all given to `waitUntil`, and the
    response chain of the fetch listener is given to `respondWith`: they
    leave nothing running on its own.  Two chains are started and given to
    neither: the write of a fetched response (status 200, type 'basic')
    into the DYNAMIC region, which is therefore never done when the
    response chain settles, and the whole UPDATE_CACHE chain of the message
    listener, which calls neither `waitUntil` nor `respondWith`. *)
Theorem C7_chains_waited_for_and_chains_left_alone (env : Env) (w : World) :
  (waitUntil on_install = [install_chain]
   /\ left_over (deliver env InstallEvent w) = [])
  /\ (waitUntil on_activate = [activate_chain]
      /\ left_over (deliver env ActivateEvent w) = [])
  /\ (forall tag,
        waitUntil (on_sync tag)
        = (if String.eqb tag "sync-posts" then [syncOfflinePosts] else [])
        /\ left_over (deliver env (SyncEvent tag) w) = [])
  /\ (forall data,
        (exists text, waitUntil (on_push data) = [showNotification "ShoreLore" text])
        /\ left_over (deliver env (PushEvent data) w) = [])
  /\ (forall action,
        waitUntil (on_notificationclick action)
        = (if String.eqb action "view" then [clients_openWindow "/"] else [])
        /\ left_over (deliver env (NotificationClickEvent action) w) = [])
  /\ (forall request,
        let d := deliver env (FetchEvent request) w in
        respondWith (on_fetch env request)
        = (if skipped env request then None else Some (fetch_chain request))
        /\ caches (at_settlement d) = caches w
        /\ left_over d =
           if skipped env request then []
           else match match_all (resolve_url env (url request)) (caches w) with
                | Some _ => []
                | None =>
                    match network env (url request) with
                    | Resolved r =>
                        if cacheable r then [detach (cache_fetched request r)] else []
                    | Rejected _ => []
                    end
                end)
  /\ (forall data ports,
        let d := deliver env (MessageEvent data ports) w in
        respondWith (listener env (MessageEvent data ports)) = None
        /\ waitUntil (listener env (MessageEvent data ports)) = []
        /\ caches (at_settlement d) = caches w
        /\ left_over d =
           if data_type_is data "UPDATE_CACHE" then [detach (update_cache ports)] else []).
Proof.
  split; [| split; [| split; [| split; [| split; [| split]]]]].
  - split; [reflexivity |].
    rewrite deliver_install. cbv zeta. cbn [left_over].
    now rewrite install_chain_started.
  - split; [reflexivity |].
    rewrite deliver_activate. cbv zeta. cbn [left_over].
    now rewrite activate_chain_started.
  - intros tag. split; [reflexivity |].
    unfold deliver, listener, on_sync.
    cbn [immediate respondWith waitUntil unreturned].
    destruct (String.eqb tag "sync-posts"); cbn [settle_waited left_over app];
      [| reflexivity].
    now rewrite syncOfflinePosts_started.
  - intros data. split; [eexists; reflexivity |].
    unfold deliver, listener, on_push.
    cbn [immediate respondWith waitUntil unreturned settle_waited left_over app].
    now rewrite showNotification_started.
  - intros action. split; [reflexivity |].
    unfold deliver, listener, on_notificationclick.
    cbn [immediate respondWith waitUntil unreturned].
    destruct (String.eqb action "view"); reflexivity.
  - intros request d. subst d.
    split; [unfold on_fetch; now destruct (skipped env request) |].
    destruct (skipped env request) eqn:Es.
    + now rewrite (deliver_fetch_skipped _ _ _ Es).
    + rewrite (deliver_fetch_handled _ _ _ Es). cbv zeta.
      cbn [at_settlement left_over].
      split; [apply fetch_chain_caches |].
      destruct (match_all (resolve_url env (url request)) (caches w)) as [r |] eqn:Em.
      * now rewrite (fetch_chain_hit _ _ _ _ Em).
      * rewrite (fetch_chain_miss _ _ _ Em).
        destruct (network env (url request)) as [r | m] eqn:En.
        -- destruct (cacheable r) eqn:Ec.
           ++ now rewrite (fetch_from_network_cached _ _ _ _ En Ec).
           ++ now rewrite (fetch_from_network_passed _ _ _ _ En Ec).
        -- now rewrite (fetch_from_network_offline _ _ _ _ En).
  - intros data ports d. subst d.
    unfold deliver, listener, on_message.
    cbn [immediate respondWith waitUntil unreturned settle_waited].
    repeat split.
    destruct (data_type_is data "UPDATE_CACHE"); cbn [left_over]; now rewrite ?app_nil_r.
Qed.

(** * Further properties of the listeners *)

(** ** More facts about the storage *)

Lemma region_update_region_ne (name other : string)
    (f : gmap string Response -> gmap string Response)
    (st : list (string * gmap string Response)) :
  name <> other ->
  region name (update_region other f st) = region name st.
Proof.
  intros Hne. induction st as [| [n c] st IH]; simpl; [reflexivity |].
  destruct (String.eqb n other) eqn:E; simpl.
  - apply String.eqb_eq in E. subst n.
    destruct (String.eqb other name) eqn:E'; [| reflexivity].
    apply String.eqb_eq in E'. congruence.
  - destruct (String.eqb n name); [reflexivity | exact IH].
Qed.

Lemma region_opened_ne (name other : string) (st : list (string * gmap string Response)) :
  name <> other -> region name (opened other st) = region name st.
Proof.
  intros Hne. unfold opened. destruct (region other st); [reflexivity |].
  rewrite region_app. destruct (region name st); [reflexivity |].
  simpl. destruct (String.eqb other name) eqn:E; [| reflexivity].
  apply String.eqb_eq in E. congruence.
Qed.

Lemma region_opened_eq (name : string) (st : list (string * gmap string Response)) :
  region name (opened name st) = Some (default ∅ (region name st)).
Proof.
  unfold opened. destruct (region name st) eqn:E; simpl.
  - now rewrite E.
  - rewrite region_app, E. simpl. now rewrite String.eqb_refl.
Qed.

(** A key held by a region is found by the unified lookup. *)
Lemma match_all_region (name key : string) (c : gmap string Response)
    (st : list (string * gmap string Response)) :
  region name st = Some c -> is_Some (c !! key) -> is_Some (match_all key st).
Proof.
  induction st as [| [n c'] st IH]; simpl; [discriminate |].
  intros Hr Hk. destruct (c' !! key) eqn:Ec; [eauto |].
  destruct (String.eqb n name).
  - injection Hr as <-. rewrite Ec in Hk. destruct Hk; discriminate.
  - now apply IH.
Qed.

(** Writing one key changes the lookup of no other key. *)
Lemma match_all_update_insert_ne (name key key' : string) (r : Response)
    (st : list (string * gmap string Response)) :
  key' <> key ->
  match_all key' (update_region name (fun c => <[key := r]> c) st) = match_all key' st.
Proof.
  intros Hne. induction st as [| [n c] st IH]; simpl; [reflexivity |].
  destruct (String.eqb n name); simpl.
  - rewrite lookup_insert_ne by congruence. reflexivity.
  - now rewrite IH.
Qed.

Lemma region_names_update_region (name : string)
    (f : gmap string Response -> gmap string Response)
    (st : list (string * gmap string Response)) :
  region_names (update_region name f st) = region_names st.
Proof.
  unfold region_names. induction st as [| [n c] st IH]; simpl; [reflexivity |].
  destruct (String.eqb n name); simpl; [reflexivity | now rewrite IH].
Qed.

Lemma region_None_names (name : string) (st : list (string * gmap string Response)) :
  region name st = None <-> ~ In name (region_names st).
Proof.
  unfold region_names. induction st as [| [n c] st IH]; simpl; [tauto |].
  destruct (String.eqb n name) eqn:E.
  - apply String.eqb_eq in E. split; [discriminate | tauto].
  - apply String.eqb_neq in E. rewrite IH. tauto.
Qed.

Lemma region_names_opened (name : string) (st : list (string * gmap string Response)) :
  region_names (opened name st) =
  if region name st is Some _ then region_names st else region_names st ++ [name].
Proof.
  unfold opened, region_names. destruct (region name st); [reflexivity |].
  now rewrite map_app.
Qed.

Lemma region_names_delete_region (name : string) (st : list (string * gmap string Response)) :
  region_names (delete_region name st)
  = List.filter (fun n => negb (String.eqb n name)) (region_names st).
Proof.
  unfold region_names, delete_region.
  induction st as [| [n c] st IH]; simpl; [reflexivity |].
  destruct (String.eqb n name); simpl; now rewrite IH.
Qed.

Lemma filter_all_true {A} (P : A -> bool) (l : list A) :
  (forall x, In x l -> P x = true) -> List.filter P l = l.
Proof.
  induction l as [| x l IH]; simpl; [reflexivity |].
  intros H. rewrite (H x) by now left. rewrite IH; [reflexivity |]. auto.
Qed.

(** In a storage with only the two current regions, the two deletions of
    UPDATE_CACHE leave nothing. *)
Lemma deletes_leave_nothing (st : list (string * gmap string Response)) :
  (forall name, In name (region_names st) -> current name = true) ->
  delete_region DYNAMIC_CACHE_NAME (delete_region STATIC_CACHE_NAME st) = [].
Proof.
  unfold region_names, delete_region.
  induction st as [| [n c] st IH]; simpl; [reflexivity |].
  intros H. assert (Hn : current n = true) by (apply H; now left).
  unfold current in Hn. apply orb_true_iff in Hn.
  destruct (String.eqb n STATIC_CACHE_NAME) eqn:Es; simpl.
  - apply IH. auto.
  - destruct Hn as [Hn | Hn]; [discriminate |]. rewrite Hn. simpl.
    apply IH. auto.
Qed.

(** ** A fetch event, run to its end *)

(** The world a fetch event leaves once the write it may have started has
    been done, for each path through the listener. *)
Lemma run_fetch env request w :
  run_to_end env (FetchEvent request) w =
  if skipped env request then w
  else match match_all (resolve_url env (url request)) (caches w) with
       | Some _ =>
           {| caches := caches w;
              trace := trace w ++ [ConsoleLog ("[SW] Serving from cache: " ++ url request)] |}
       | None =>
           match network env (url request) with
           | Resolved r =>
               if cacheable r
               then written env request r
                      {| caches := caches w;
                         trace := trace w ++ [NetworkFetch (url request);
                                              ConsoleLog ("[SW] Fetched and cached: "
                                                          ++ url request)] |}
               else {| caches := caches w;
                       trace := trace w ++ [NetworkFetch (url request)] |}
           | Rejected _ =>
               {| caches := caches w; trace := trace w ++ [NetworkFetch (url request)] |}
           end
       end.
Proof.
  unfold run_to_end.
  destruct (skipped env request) eqn:Es.
  - now rewrite (deliver_fetch_skipped _ _ _ Es).
  - rewrite (deliver_fetch_handled _ _ _ Es). cbv zeta.
    destruct (match_all (resolve_url env (url request)) (caches w)) as [r |] eqn:Em.
    + now rewrite (fetch_chain_hit _ _ _ _ Em).
    + rewrite (fetch_chain_miss _ _ _ Em).
      destruct (network env (url request)) as [r | m] eqn:En.
      * destruct (cacheable r) eqn:Ec.
        -- now rewrite (fetch_from_network_cached _ _ _ _ En Ec).
        -- now rewrite (fetch_from_network_passed _ _ _ _ En Ec).
      * now rewrite (fetch_from_network_offline _ _ _ _ En).
Qed.

(** The chains a fetch event leaves on their own: at most the write of the
    response just fetched, started after a miss. *)
Lemma fetch_left_over env request w job :
  In job (left_over (deliver env (FetchEvent request) w)) ->
  exists r,
    job = detach (cache_fetched request r)
    /\ match_all (resolve_url env (url request)) (caches w) = None
    /\ network env (url request) = Resolved r
    /\ cacheable r = true.
Proof.
  destruct (skipped env request) eqn:Es.
  { rewrite (deliver_fetch_skipped _ _ _ Es). intros []. }
  rewrite (deliver_fetch_handled _ _ _ Es). cbv zeta. cbn [left_over].
  destruct (match_all (resolve_url env (url request)) (caches w)) as [r |] eqn:Em.
  { rewrite (fetch_chain_hit _ _ _ _ Em). intros []. }
  rewrite (fetch_chain_miss _ _ _ Em).
  destruct (network env (url request)) as [r | m] eqn:En.
  - destruct (cacheable r) eqn:Ec.
    + rewrite (fetch_from_network_cached _ _ _ _ En Ec). cbn [started].
      intros [<- | []]. eauto.
    + rewrite (fetch_from_network_passed _ _ _ _ En Ec). intros [].
  - rewrite (fetch_from_network_offline _ _ _ _ En). intros [].
Qed.

Lemma landed env request r w :
  snd (detach (cache_fetched request r) env w) = written env request r w.
Proof. reflexivity. Qed.

(** Wherever it lands, the write of a fetched response changes the lookup
    of no other URL. *)
Lemma written_other_lookups env request r w key :
  key <> resolve_url env (url request) ->
  match_all key (caches (written env request r w)) = match_all key (caches w).
Proof.
  intros Hne. rewrite written_caches.
  destruct (accepted request r).
  - rewrite match_all_update_insert_ne by assumption. apply opened_match_all.
  - apply opened_match_all.
Qed.

Lemma written_other_regions env request r w name :
  name <> DYNAMIC_CACHE_NAME ->
  region name (caches (written env request r w)) = region name (caches w).
Proof.
  intros Hne. rewrite written_caches.
  destruct (accepted request r).
  - rewrite region_update_region_ne by assumption. now apply region_opened_ne.
  - now apply region_opened_ne.
Qed.

Lemma resolve_url_with_network env net (u : string) :
  resolve_url (with_network env net) u = resolve_url env u.
Proof. reflexivity. Qed.

(** X1. The write a fetch event leaves unawaited, whenever it lands and
    whatever the storage has become by then, changes no lookup for a URL
    other than the request's own and no region but the DYNAMIC one, and has
    no effect outside the storage. *)
Theorem unawaited_write_touches_only_its_own_url
    (env : Env) (w landing : World) (request : Request) (job : Job) (key : string)
    (Hjob : In job (left_over (deliver env (FetchEvent request) w)))
    (Hother : key <> resolve_url env (url request)) :
  match_all key (caches (snd (job env landing))) = match_all key (caches landing)
  /\ (forall name, name <> DYNAMIC_CACHE_NAME ->
        region name (caches (snd (job env landing))) = region name (caches landing))
  /\ trace (snd (job env landing)) = trace landing.
Proof.
  destruct (fetch_left_over env request w job Hjob) as (r & -> & _).
  rewrite landed. split; [| split].
  - now apply written_other_lookups.
  - intros name Hne. now apply written_other_regions.
  - apply written_trace.
Qed.

Lemma unawaited_write_touches_only_its_own_url_witness :
  match_all "https://riprap.example/index.html"
    (caches (snd (detach (cache_fetched Scenario.posts Scenario.page) Scenario.online
                    Scenario.installed)))
  = Some Scenario.page.
Proof.
  apply (proj1 (unawaited_write_touches_only_its_own_url Scenario.online Scenario.fresh
                  Scenario.installed Scenario.posts
                  (detach (cache_fetched Scenario.posts Scenario.page))
                  "https://riprap.example/index.html"
                  (or_introl eq_refl)
                  ltac:(vm_compute; discriminate))).
Defined.

(** What every pending write of a run of overlapping fetch events does to
    a response that is stored: nothing. *)
Lemma step_keeps_cached_answer env key r s (w : World) (pending : list Job) :
  match_all key (caches w) = Some r ->
  Forall (fun job : Job => forall w', match_all key (caches w') = Some r ->
                                      match_all key (caches (snd (job env w'))) = Some r)
         pending ->
  match_all key (caches (fst (step env s (w, pending)))) = Some r
  /\ Forall (fun job : Job => forall w', match_all key (caches w') = Some r ->
                                         match_all key (caches (snd (job env w'))) = Some r)
            (snd (step env s (w, pending))).
Proof.
  intros Hheld Hpending. destruct s as [net request | i]; unfold step; cbn [fst snd].
  - split.
    + destruct (skipped (with_network env net) request) eqn:Es.
      * now rewrite (deliver_fetch_skipped _ _ _ Es).
      * rewrite (deliver_fetch_handled _ _ _ Es). cbv zeta. cbn [at_settlement].
        now rewrite fetch_chain_caches.
    + apply Forall_app. split; [assumption |].
      apply List.Forall_forall. intros job Hjob.
      destruct (fetch_left_over _ _ _ _ Hjob) as (r' & -> & Hmiss & _).
      rewrite resolve_url_with_network in Hmiss.
      intros w' Hw'. rewrite landed, written_other_lookups; [assumption |].
      intros ->. rewrite Hheld in Hmiss. discriminate Hmiss.
  - destruct (List.nth_error pending i) as [job |] eqn:Ei; cbn [fst snd];
      [| now split].
    rewrite List.Forall_forall in Hpending.
    split.
    + apply List.nth_error_In in Ei. now apply (Hpending job Ei).
    + apply Forall_app. split; apply List.Forall_forall; intros j Hj; apply Hpending.
      * rewrite <- (List.firstn_skipn i pending). apply in_or_app. now left.
      * rewrite <- (List.firstn_skipn (S i) pending). apply in_or_app. now right.
Qed.

(** X2. Fetch events that overlap never change a stored response.  From a
    world where no write is pending, in any run where fetch events arrive,
    each on whatever network, and their unawaited writes land in any order
    and at any later time, a response the lookup finds at the start is the
    one it finds at the end. *)
Theorem overlapping_fetch_events_keep_cached_answers
    (env : Env) (steps : list Step) (w : World) (key : string) (r : Response)
    (Hheld : match_all key (caches w) = Some r) :
  match_all key (caches (fst (interleaved env steps w))) = Some r.
Proof.
  unfold interleaved.
  assert (Hgen : forall wp,
            match_all key (caches (fst wp)) = Some r ->
            Forall (fun job => forall w', match_all key (caches w') = Some r ->
                                          match_all key (caches (snd (job env w'))) = Some r)
                   (snd wp) ->
            match_all key
              (caches (fst (List.fold_left (fun wp s => step env s wp) steps wp))) = Some r).
  { induction steps as [| s steps IH]; intros [w0 pending] H1 H2; cbn [fold_left];
      [assumption |].
    destruct (step_keeps_cached_answer env key r s w0 pending H1 H2) as [H1' H2'].
    now apply IH. }
  apply Hgen; [assumption | constructor].
Qed.

Lemma overlapping_fetch_events_keep_cached_answers_witness :
  match_all "https://riprap.example/index.html"
    (caches (fst (interleaved Scenario.online
                    [Arrives (fun _ => Resolved Scenario.page) Scenario.posts;
                     Arrives (fun _ => Resolved Scenario.not_found) Scenario.posts;
                     Arrives (fun _ => Rejected "Failed to fetch") Scenario.navigation;
                     Lands 0;
                     Arrives (fun _ => Resolved Scenario.negotiated) Scenario.submit;
                     Lands 0]
                    Scenario.installed)))
  = Some Scenario.page.
Proof.
  apply (overlapping_fetch_events_keep_cached_answers Scenario.online
           [Arrives (fun _ => Resolved Scenario.page) Scenario.posts;
            Arrives (fun _ => Resolved Scenario.not_found) Scenario.posts;
            Arrives (fun _ => Rejected "Failed to fetch") Scenario.navigation;
            Lands 0;
            Arrives (fun _ => Resolved Scenario.negotiated) Scenario.submit;
            Lands 0]
           Scenario.installed "https://riprap.example/index.html" Scenario.page).
  vm_compute. reflexivity.
Defined.

(** X3. A fetch event touches no region but the DYNAMIC one, and what the
    DYNAMIC region gains is only the request's own URL with the response
    the network gave for it, of status 200 and type 'basic': an error, a
    redirect or an opaque response is never stored. *)
Theorem fetch_stores_only_successful_basic_responses
    (env : Env) (w : World) (request : Request) :
  let w' := run_to_end env (FetchEvent request) w in
  (forall name, name <> DYNAMIC_CACHE_NAME ->
                region name (caches w') = region name (caches w))
  /\ (forall c' key r,
        region DYNAMIC_CACHE_NAME (caches w') = Some c' ->
        c' !! key = Some r ->
        (exists c, region DYNAMIC_CACHE_NAME (caches w) = Some c /\ c !! key = Some r)
        \/ (key = resolve_url env (url request)
            /\ network env (url request) = Resolved r
            /\ status r = 200
            /\ type r = "basic")).
Proof.
  intros w'. subst w'. rewrite run_fetch.
  destruct (skipped env request); [split; eauto |].
  destruct (match_all (resolve_url env (url request)) (caches w)) eqn:Em;
    [split; cbn [caches]; eauto |].
  destruct (network env (url request)) as [r' | m] eqn:En;
    [| split; cbn [caches]; eauto].
  destruct (cacheable r') eqn:Ec; [| split; cbn [caches]; eauto].
  split.
  - intros name Hne. now rewrite written_other_regions.
  - intros c' key r. rewrite written_caches. cbn [caches].
    destruct (accepted request r').
    + rewrite region_update_region, region_opened_eq.
      cbn [fmap option_fmap option_map].
      intros [= <-] Hk.
      destruct (String.eqb key (resolve_url env (url request))) eqn:Ek.
      * apply String.eqb_eq in Ek. subst key. rewrite lookup_insert_eq in Hk.
        injection Hk as <-. right. apply cacheable_spec in Ec. tauto.
      * apply String.eqb_neq in Ek. rewrite lookup_insert_ne in Hk by congruence.
        destruct (region DYNAMIC_CACHE_NAME (caches w)) as [c |]; cbn [default] in Hk.
        -- left. eauto.
        -- rewrite lookup_empty in Hk. discriminate.
    + rewrite region_opened_eq. intros [= <-] Hk.
      destruct (region DYNAMIC_CACHE_NAME (caches w)) as [c |]; cbn [default] in Hk.
      * left. eauto.
      * rewrite lookup_empty in Hk. discriminate.
Qed.

Lemma fetch_stores_only_successful_basic_responses_witness :
  region STATIC_CACHE_NAME
    (caches (run_to_end Scenario.online (FetchEvent Scenario.posts) Scenario.installed))
  = region STATIC_CACHE_NAME (caches Scenario.installed)
  /\ region DYNAMIC_CACHE_NAME
       (caches (run_to_end Scenario.missing (FetchEvent Scenario.posts) Scenario.fresh))
     = None.
Proof.
  split.
  - apply (proj1 (fetch_stores_only_successful_basic_responses Scenario.online
                    Scenario.installed Scenario.posts)).
    discriminate.
  - destruct (region DYNAMIC_CACHE_NAME
                (caches (run_to_end Scenario.missing (FetchEvent Scenario.posts)
                           Scenario.fresh))) as [c' |] eqn:Hc; [| reflexivity].
    exfalso. vm_compute in Hc. discriminate Hc.
Defined.

(** X4. A fetch event sends at most one request to the network, for the
    request's own URL, and only when the request is handled and found in no
    region; besides that it only logs: it posts no message, shows no
    notification, and calls neither `skipWaiting` nor `clients.claim`. *)
Theorem fetch_uses_the_network_at_most_once (env : Env) (w : World) (request : Request) :
  exists evs,
    trace (run_to_end env (FetchEvent request) w) = trace w ++ evs
    /\ Forall (fun e => e = NetworkFetch (url request) \/ exists text, e = ConsoleLog text) evs
    /\ network_fetches evs =
       if skipped env request then []
       else if match_all (resolve_url env (url request)) (caches w) is Some _ then []
            else [url request].
Proof.
  rewrite run_fetch.
  destruct (skipped env request).
  { exists []. rewrite app_nil_r. repeat split. constructor. }
  destruct (match_all (resolve_url env (url request)) (caches w)).
  { eexists. cbn [trace]. split; [reflexivity |]. split; [| reflexivity].
    constructor; [right; eauto | constructor]. }
  destruct (network env (url request)) as [r | m].
  - destruct (cacheable r).
    + eexists. rewrite written_trace. cbn [trace]. split; [reflexivity |].
      split; [| reflexivity].
      constructor; [now left |]. constructor; [right; eauto | constructor].
    + eexists. cbn [trace]. split; [reflexivity |]. split; [| reflexivity].
      constructor; [now left | constructor].
  - eexists. cbn [trace]. split; [reflexivity |]. split; [| reflexivity].
    constructor; [now left | constructor].
Qed.

(** ** The guard of the fetch listener *)

Lemma string_app_cons (x : ascii) (a b : string) :
  (String x a ++ b)%string = String x (a ++ b).
Proof. reflexivity. Qed.

Lemma string_app_nil (b : string) : ("" ++ b)%string = b.
Proof. reflexivity. Qed.

Lemma string_app_assoc (a b c : string) : ((a ++ b) ++ c = a ++ (b ++ c))%string.
Proof.
  induction a as [| x a IH]; [reflexivity |].
  rewrite !string_app_cons. now f_equal.
Qed.

Lemma string_length_app (a b : string) :
  String.length (a ++ b) = (String.length a + String.length b)%nat.
Proof.
  induction a as [| x a IH]; [reflexivity |].
  rewrite string_app_cons. simpl. now rewrite IH.
Qed.

Lemma substring_whole (s : string) (m : nat) :
  (String.length s <= m)%nat -> String.substring 0 m s = s.
Proof.
  revert m. induction s as [| x s IH]; intros m Hm.
  - now destruct m.
  - destruct m as [| m]; simpl in *; [lia |]. rewrite IH; [reflexivity | lia].
Qed.

Lemma substring_head (a b : string) :
  String.substring 0 (String.length a) (a ++ b) = a.
Proof.
  induction a as [| x a IH].
  - rewrite string_app_nil. now destruct b.
  - rewrite string_app_cons. simpl. now rewrite IH.
Qed.

Lemma substring_tail (a b : string) (n m : nat) :
  String.substring (String.length a + n) m (a ++ b) = String.substring n m b.
Proof.
  induction a as [| x a IH]; [reflexivity |].
  rewrite string_app_cons. simpl. exact IH.
Qed.

Lemma prefix_slash (s : string) :
  String.prefix "/" s = true <-> exists rest, s = String "/"%char rest.
Proof.
  rewrite String.prefix_correct. split.
  - destruct s as [| c s]; simpl; [discriminate |].
    destruct s; simpl; intros [= ->]; eauto.
  - intros [rest ->]. simpl. now destruct rest.
Qed.

Lemma index_0_cons (s1 : string) (b : ascii) (s2 : string) :
  String.index 0 s1 (String b s2) =
  if String.prefix s1 (String b s2) then Some 0%nat
  else match String.index 0 s1 s2 with
       | Some n => Some (S n)
       | None => None
       end.
Proof. reflexivity. Qed.

Lemma index_after_scheme (scheme rest : string) :
  plain_scheme scheme = true ->
  String.index 0 "://" (scheme ++ "://" ++ rest) = Some (String.length scheme).
Proof.
  induction scheme as [| c scheme IH]; intros Hs.
  - rewrite string_app_nil, !string_app_cons, string_app_nil.
    assert (Hp : String.prefix "://" (String ":" (String "/" (String "/" rest))) = true).
    { apply String.prefix_correct. simpl. now destruct rest. }
    rewrite index_0_cons. now rewrite Hp.
  - simpl in Hs. apply andb_true_iff in Hs. destruct Hs as [Hc Hs].
    apply negb_true_iff, Ascii.eqb_neq in Hc.
    rewrite string_app_cons.
    assert (Hp : String.prefix "://" (String c (scheme ++ "://" ++ rest)) = false).
    { destruct (String.prefix "://" (String c (scheme ++ "://" ++ rest))) eqn:E;
        [| reflexivity].
      apply String.prefix_correct in E. simpl in E. congruence. }
    rewrite index_0_cons, Hp. cbn [String.length]. now rewrite (IH Hs).
Qed.

Lemma authority_of_host (host path : string) :
  plain_host host = true ->
  String.prefix "/" path = true ->
  authority (host ++ path) = host.
Proof.
  intros Hh Hp. apply prefix_slash in Hp. destruct Hp as [rest ->].
  induction host as [| c host IH]; [reflexivity |].
  rewrite string_app_cons. simpl in *.
  apply andb_true_iff in Hh. destruct Hh as [Hc Hh].
  apply negb_true_iff in Hc. rewrite Hc. now rewrite IH.
Qed.

(** The origin read off a serialised URL is its scheme and host. *)
Lemma url_origin_of_path (scheme host path : string) :
  plain_scheme scheme = true ->
  plain_host host = true ->
  String.prefix "/" path = true ->
  url_origin ((scheme ++ "://" ++ host) ++ path) = (scheme ++ "://" ++ host)%string.
Proof.
  intros Hs Hh Hp. unfold url_origin.
  rewrite !string_app_assoc. rewrite (index_after_scheme _ _ Hs).
  rewrite substring_head.
  rewrite substring_tail. change 3%nat with (String.length "://" + 0)%nat.
  rewrite (substring_tail "://"). rewrite substring_whole.
  - now rewrite authority_of_host.
  - rewrite !string_length_app. lia.
Qed.

(** X5. A request for any path under the worker's own origin is handled by
    the fetch listener, whatever its destination and its method. *)
Theorem same_origin_paths_are_handled
    (env : Env) (scheme host path dest meth : string)
    (Horigin : location_origin env = (scheme ++ "://" ++ host)%string)
    (Hscheme : plain_scheme scheme = true)
    (Hhost : plain_host host = true)
    (Hpath : String.prefix "/" path = true) :
  skipped env {| url := location_origin env ++ path; destination := dest;
                 method := meth |} = false
  /\ respondWith (on_fetch env {| url := location_origin env ++ path; destination := dest;
                                  method := meth |})
     = Some (fetch_chain {| url := location_origin env ++ path; destination := dest;
                            method := meth |}).
Proof.
  assert (Hk : skipped env {| url := location_origin env ++ path; destination := dest;
                              method := meth |} = false).
  { unfold skipped. cbn [url]. rewrite Horigin.
    rewrite (url_origin_of_path _ _ _ Hscheme Hhost Hpath).
    now rewrite String.eqb_refl. }
  split; [exact Hk |]. unfold on_fetch. now rewrite Hk.
Qed.

Lemma same_origin_paths_are_handled_witness :
  skipped Scenario.online
    {| url := "https://riprap.example/catches/42?tab=photos"; destination := "";
       method := "POST" |} = false.
Proof.
  apply (proj1 (same_origin_paths_are_handled Scenario.online "https" "riprap.example"
                  "/catches/42?tab=photos" "" "POST" eq_refl eq_refl eq_refl eq_refl)).
Defined.

(** X6. A request of another origin is handled exactly when its URL is one
    of the four CDN URLs of the static asset list: the six relative entries
    of the list never match a request URL, which is absolute. *)
Theorem cross_origin_requests_handled_only_for_cdn_files
    (env : Env) (request : Request)
    (Hother : url_origin (url request) <> location_origin env)
    (Habsolute : String.prefix "/" (url request) = false) :
  skipped env request = false <-> In (url request) CDN_FILES.
Proof.
  rewrite skipped_false. split.
  - intros [Hsame | Hin]; [contradiction |].
    simpl in Hin.
    repeat (destruct Hin as [Hin | Hin];
            [try (rewrite <- Hin in Habsolute; vm_compute in Habsolute; discriminate);
             rewrite <- Hin; simpl; tauto |]).
    contradiction.
  - intros Hin. right. simpl in Hin. simpl. tauto.
Qed.

Lemma cross_origin_requests_handled_only_for_cdn_files_witness :
  skipped Scenario.online
    {| url := "https://unpkg.com/react@18/umd/react.development.js";
       destination := "script"; method := "GET" |} = false.
Proof.
  apply (cross_origin_requests_handled_only_for_cdn_files Scenario.online
           {| url := "https://unpkg.com/react@18/umd/react.development.js";
              destination := "script"; method := "GET" |}).
  - vm_compute. discriminate.
  - vm_compute. reflexivity.
  - simpl. tauto.
Defined.

(** ** Install and activation, run to their end *)

Lemma run_install_caches env w :
  caches (run_to_end env InstallEvent w) =
  match fetched_all env (static_targets env) with
  | Resolved l =>
      update_region STATIC_CACHE_NAME (populated l) (opened STATIC_CACHE_NAME (caches w))
  | Rejected _ => opened STATIC_CACHE_NAME (caches w)
  end.
Proof.
  unfold run_to_end. rewrite deliver_install. cbv zeta.
  cbn [left_over at_settlement]. rewrite install_chain_started.
  cbn [app run_jobs fold_left]. rewrite install_chain_spec. cbv zeta.
  now destruct (fetched_all env (static_targets env)).
Qed.

Lemma run_install_trace env w :
  trace (run_to_end env InstallEvent w) =
  trace w
  ++ [ConsoleLog "[SW] Installing service worker..."; SkipWaiting;
      ConsoleLog "[SW] Caching static files"]
  ++ List.map NetworkFetch (static_targets env)
  ++ match fetched_all env (static_targets env) with
     | Resolved _ => []
     | Rejected m => [ConsoleError ("[SW] Failed to cache static files: " ++ m)]
     end.
Proof.
  unfold run_to_end. rewrite deliver_install. cbv zeta.
  cbn [left_over at_settlement]. rewrite install_chain_started.
  cbn [app run_jobs fold_left]. rewrite install_chain_spec. cbv zeta.
  destruct (fetched_all env (static_targets env)); cbn [after trace];
    rewrite <- ?app_assoc; cbn [app]; now rewrite ?app_nil_r.
Qed.

Lemma run_activate_caches env w :
  caches (run_to_end env ActivateEvent w)
  = List.filter (fun nc => current (fst nc)) (caches w).
Proof.
  unfold run_to_end. rewrite deliver_activate. cbv zeta.
  cbn [left_over at_settlement]. rewrite activate_chain_started.
  cbn [app run_jobs fold_left].
  unfold activate_chain, then_, clients_claim.
  destruct (activate_cleanup_spec env
              {| caches := caches w;
                 trace := trace w ++ [ConsoleLog "[SW] Activating service worker..."] |})
    as ([l Hs] & Hc & _ & _).
  rewrite Hs. cbn [after perform caches]. exact Hc.
Qed.

Lemma region_filter_current (name : string) (st : list (string * gmap string Response)) :
  region name (List.filter (fun nc => current (fst nc)) st)
  = if current name then region name st else None.
Proof.
  induction st as [| [n c] st IH]; simpl; [now destruct (current name) |].
  destruct (String.eqb n name) eqn:E.
  - apply String.eqb_eq in E. subst n.
    destruct (current name); simpl; [now rewrite String.eqb_refl | exact IH].
  - destruct (current n); simpl; [now rewrite E | exact IH].
Qed.

Lemma resolve_url_same_origin env env' (u : string) :
  location_origin env' = location_origin env -> resolve_url env' u = resolve_url env u.
Proof. intros H. unfold resolve_url. now rewrite H. Qed.

(** When no region holds a key, the first to hold it after an update of
    one region is that region. *)
Lemma match_all_update_first (name key : string)
    (f : gmap string Response -> gmap string Response)
    (st : list (string * gmap string Response)) :
  match_all key st = None ->
  match_all key (update_region name f st)
  = match region name st with
    | Some c => f c !! key
    | None => None
    end.
Proof.
  induction st as [| [n c] st IH]; simpl; [reflexivity |].
  destruct (c !! key) eqn:Ec; [discriminate |]. intros Hm.
  destruct (String.eqb n name); simpl.
  - rewrite Hm. now destruct (f c !! key).
  - rewrite Ec. now apply IH.
Qed.

Lemma In_update_region_ne (name other : string) (c : gmap string Response)
    (f : gmap string Response -> gmap string Response)
    (st : list (string * gmap string Response)) :
  name <> other -> In (name, c) (update_region other f st) -> In (name, c) st.
Proof.
  intros Hne. induction st as [| [n c'] st IH]; simpl; [tauto |].
  destruct (String.eqb n other) eqn:E; simpl.
  - apply String.eqb_eq in E. subst n. intros [[= <- _] | H]; [congruence | tauto].
  - intros [H | H]; [tauto | right; now apply IH].
Qed.

Lemma In_opened_ne (name other : string) (c : gmap string Response)
    (st : list (string * gmap string Response)) :
  name <> other -> In (name, c) (opened other st) -> In (name, c) st.
Proof.
  intros Hne. unfold opened. destruct (region other st); [tauto |].
  rewrite in_app_iff. simpl. intros [H | [[= <- _] | []]]; [assumption | congruence].
Qed.

(** Dropping regions that do not hold a key changes no lookup of it. *)
Lemma match_all_filter (P : string -> bool) (key : string)
    (st : list (string * gmap string Response)) :
  (forall name c, In (name, c) st -> P name = false -> c !! key = None) ->
  match_all key (List.filter (fun nc => P (fst nc)) st) = match_all key st.
Proof.
  induction st as [| [n c] st IH]; simpl; [reflexivity |].
  intros H. destruct (P n) eqn:En; simpl.
  - destruct (c !! key); [reflexivity |]. apply IH. eauto.
  - rewrite (H n c (or_introl eq_refl) En). apply IH. eauto.
Qed.

(** What a successful install leaves in the STATIC region. *)
Lemma installed_static_region env w l :
  fetched_all env (static_targets env) = Resolved l ->
  exists c,
    region STATIC_CACHE_NAME (caches (run_to_end env InstallEvent w)) = Some c
    /\ (forall asset, In asset STATIC_FILES ->
          exists r, network env (resolve_url env asset) = Resolved r
                    /\ c !! resolve_url env asset = Some r)
    /\ (forall key, ~ In key (static_targets env) ->
          c !! key = default ∅ (region STATIC_CACHE_NAME (caches w)) !! key).
Proof.
  intros Hl. rewrite run_install_caches, Hl.
  rewrite region_update_region, region_opened_eq. cbn [fmap option_fmap option_map].
  eexists. split; [reflexivity |].
  destruct (populated_fetched env (static_targets env) l
              (default ∅ (region STATIC_CACHE_NAME (caches w))) Hl) as [Hin Hout].
  split; [| exact Hout].
  intros asset Ha. apply Hin. unfold static_targets. now apply in_map.
Qed.

Lemma installed_asset_found env w l asset :
  fetched_all env (static_targets env) = Resolved l ->
  In asset STATIC_FILES ->
  is_Some (match_all (resolve_url env asset) (caches (run_to_end env InstallEvent w))).
Proof.
  intros Hl Ha.
  destruct (installed_static_region env w l Hl) as (c & Hc & Hin & _).
  destruct (Hin asset Ha) as (r & _ & Hr).
  apply (match_all_region STATIC_CACHE_NAME _ c); [assumption | eauto].
Qed.

(** When nothing held an asset before the install, what the lookup finds
    for it afterwards is the response the install fetched. *)
Lemma installed_asset_fresh env w l asset :
  fetched_all env (static_targets env) = Resolved l ->
  In asset STATIC_FILES ->
  match_all (resolve_url env asset) (caches w) = None ->
  exists r,
    network env (resolve_url env asset) = Resolved r
    /\ match_all (resolve_url env asset) (caches (run_to_end env InstallEvent w)) = Some r.
Proof.
  intros Hl Ha Hm.
  destruct (populated_fetched env (static_targets env) l
              (default ∅ (region STATIC_CACHE_NAME (caches w))) Hl) as [Hin _].
  destruct (Hin (resolve_url env asset)) as (r & Hn & Hr).
  { unfold static_targets. now apply in_map. }
  exists r. split; [assumption |].
  rewrite run_install_caches, Hl.
  rewrite match_all_update_first by now rewrite opened_match_all.
  now rewrite region_opened_eq.
Qed.

(** X7. When every asset is fetched with a response `cache.addAll`
    accepts (an `ok` status other than 206, no `Vary: *`), the install
    leaves each of them in the STATIC region under its serialised URL, with
    the response the network gave for it; each is then found by the
    unified lookup, and no error is logged. *)
Theorem install_success_caches_every_asset
    (env : Env) (w : World) (l : list (string * Response))
    (Hfetched : fetched_all env (static_targets env) = Resolved l) :
  let w' := run_to_end env InstallEvent w in
  (exists c,
     region STATIC_CACHE_NAME (caches w') = Some c
     /\ forall asset, In asset STATIC_FILES ->
          exists r, network env (resolve_url env asset) = Resolved r
                    /\ c !! resolve_url env asset = Some r)
  /\ (forall asset, In asset STATIC_FILES ->
        is_Some (match_all (resolve_url env asset) (caches w')))
  /\ (forall text, In (ConsoleError text) (trace w') -> In (ConsoleError text) (trace w)).
Proof.
  intros w'. subst w'.
  destruct (installed_static_region env w l Hfetched) as (c & Hc & Hin & _).
  split; [eauto |]. split.
  - intros asset Ha. now apply (installed_asset_found env w l).
  - intros text. rewrite run_install_trace, Hfetched, app_nil_r.
    rewrite !in_app_iff. intros [H | [H | H]]; [assumption | |].
    + simpl in H. intuition discriminate.
    + apply in_map_iff in H. destruct H as [t [H _]]. discriminate.
Qed.

Lemma install_success_caches_every_asset_witness :
  is_Some (match_all "https://riprap.example/index.html"
             (caches (run_to_end Scenario.online InstallEvent Scenario.fresh)))
  /\ is_Some (match_all "https://cdn.tailwindcss.com/"
                (caches (run_to_end Scenario.online InstallEvent Scenario.fresh))).
Proof.
  destruct (fetched_all Scenario.online (static_targets Scenario.online)) as [l |] eqn:El;
    [| vm_compute in El; discriminate].
  split.
  - apply (proj1 (proj2 (install_success_caches_every_asset Scenario.online Scenario.fresh
                           l El)) "/index.html").
    simpl. tauto.
  - apply (proj1 (proj2 (install_success_caches_every_asset Scenario.online Scenario.fresh
                           l El)) "https://cdn.tailwindcss.com").
    simpl. tauto.
Defined.

(** X8. An install never loses an entry.  It changes no region but the
    STATIC one; when the population fails, an existing STATIC region is
    left exactly as it was; when it succeeds, the STATIC region keeps every
    entry that is not one of the static assets. *)
Theorem install_keeps_what_is_stored (env : Env) (w : World) :
  let w' := run_to_end env InstallEvent w in
  (forall name, name <> STATIC_CACHE_NAME ->
                region name (caches w') = region name (caches w))
  /\ (forall m c,
        fetched_all env (static_targets env) = Rejected m ->
        region STATIC_CACHE_NAME (caches w) = Some c ->
        caches w' = caches w)
  /\ (forall l c key,
        fetched_all env (static_targets env) = Resolved l ->
        region STATIC_CACHE_NAME (caches w) = Some c ->
        ~ In key (static_targets env) ->
        exists c', region STATIC_CACHE_NAME (caches w') = Some c' /\ c' !! key = c !! key).
Proof.
  intros w'. subst w'. split; [| split].
  - intros name Hne. rewrite run_install_caches.
    destruct (fetched_all env (static_targets env)).
    + rewrite region_update_region_ne by assumption. now apply region_opened_ne.
    + now apply region_opened_ne.
  - intros m c Hm Hc. rewrite run_install_caches, Hm. unfold opened. now rewrite Hc.
  - intros l c key Hl Hc Hk.
    destruct (installed_static_region env w l Hl) as (c' & Hc' & _ & Hout).
    exists c'. split; [assumption |]. rewrite (Hout key Hk), Hc. reflexivity.
Qed.

Lemma install_keeps_what_is_stored_witness :
  caches (run_to_end Scenario.offline InstallEvent Scenario.installed)
  = caches Scenario.installed.
Proof.
  apply (proj1 (proj2 (install_keeps_what_is_stored Scenario.offline Scenario.installed))
           "Failed to fetch" {["https://riprap.example/index.html" := Scenario.page]}).
  - reflexivity.
  - reflexivity.
Defined.

(** X9. After a successful install, a handled GET request for a static
    asset is answered from the cache: the listener resolves with the
    response the lookup finds for the asset, which is the one the install
    fetched when nothing held the asset before; it sends nothing to the
    network, changes no region and leaves nothing running. *)
Theorem installed_asset_is_served_without_network
    (env : Env) (w : World) (l : list (string * Response)) (asset dest : string)
    (Hfetched : fetched_all env (static_targets env) = Resolved l)
    (Hasset : In asset STATIC_FILES)
    (Hhandled : skipped env {| url := resolve_url env asset; destination := dest;
                               method := "GET" |} = false)
    (Hserialised : resolve_url env (resolve_url env asset) = resolve_url env asset) :
  let w1 := run_to_end env InstallEvent w in
  let d := deliver env (FetchEvent {| url := resolve_url env asset; destination := dest;
                                      method := "GET" |}) w1 in
  exists r,
    match_all (resolve_url env asset) (caches w1) = Some r
    /\ response d = Some (Resolved (Some r))
    /\ (match_all (resolve_url env asset) (caches w) = None ->
        network env (resolve_url env asset) = Resolved r)
    /\ network_fetches (trace (at_settlement d)) = network_fetches (trace w1)
    /\ caches (at_settlement d) = caches w1
    /\ left_over d = [].
Proof.
  intros w1 d.
  destruct (installed_asset_found env w l asset Hfetched Hasset) as [r Hr].
  fold w1 in Hr. exists r. split; [exact Hr |]. subst d.
  rewrite (deliver_fetch_handled _ _ _ Hhandled). cbv zeta.
  assert (Hhit : match_all (resolve_url env (url {| url := resolve_url env asset;
                                                    destination := dest;
                                                    method := "GET" |}))
                   (caches w1) = Some r).
  { cbn [url]. now rewrite Hserialised. }
  rewrite (fetch_chain_hit _ _ _ _ Hhit).
  cbn [response at_settlement left_over settled after started trace caches].
  split; [reflexivity |]. split.
  - intros Hfresh.
    destruct (installed_asset_fresh env w l asset Hfetched Hasset Hfresh) as (r' & Hn & Hr').
    fold w1 in Hr'. congruence.
  - repeat split.
    unfold network_fetches. rewrite flat_map_app. simpl. now rewrite app_nil_r.
Qed.

Lemma installed_asset_is_served_without_network_witness :
  let w1 := run_to_end Scenario.online InstallEvent Scenario.fresh in
  let d := deliver Scenario.online
             (FetchEvent {| url := "https://riprap.example/src/App.jsx";
                            destination := "script"; method := "GET" |}) w1 in
  response d = Some (Resolved (Some Scenario.page))
  /\ network_fetches (trace (at_settlement d)) = network_fetches (trace w1)
  /\ left_over d = [].
Proof.
  destruct (fetched_all Scenario.online (static_targets Scenario.online)) as [l |] eqn:El;
    [| vm_compute in El; discriminate].
  destruct (installed_asset_is_served_without_network Scenario.online Scenario.fresh l
              "/src/App.jsx" "script" El
              ltac:(simpl; tauto) eq_refl eq_refl)
    as (r & _ & Hresp & Hnet & Hfetches & _ & Hleft).
  specialize (Hnet eq_refl). injection Hnet as <-.
  cbv zeta. split; [exact Hresp | split; [exact Hfetches | exact Hleft]].
Defined.

(** X10. The offline shell.  After a successful install followed by the
    activation, a handled navigation that is found in no region and whose
    fetch rejects is answered with the root document the regions hold for
    '/index.html', on any network of the same origin; when nothing held the
    root document before the install, it is the one the install fetched. *)
Theorem offline_navigation_after_install_gets_root_document
    (env env' : Env) (w : World) (l : list (string * Response))
    (request : Request) (m : string)
    (Hfetched : fetched_all env (static_targets env) = Resolved l)
    (Horigin : location_origin env' = location_origin env)
    (Hhandled : skipped env' request = false)
    (Hnav : destination request = "document")
    (Hmiss : match_all (resolve_url env' (url request))
               (caches (events env [InstallEvent; ActivateEvent] w)) = None)
    (Hnet : network env' (url request) = Rejected m) :
  let w2 := events env [InstallEvent; ActivateEvent] w in
  exists root,
    match_all (resolve_url env "/index.html") (caches w2) = Some root
    /\ response (deliver env' (FetchEvent request) w2) = Some (Resolved (Some root))
    /\ (match_all (resolve_url env "/index.html") (caches w) = None ->
        network env (resolve_url env "/index.html") = Resolved root).
Proof.
  cbv zeta. set (w2 := events env [InstallEvent; ActivateEvent] w) in *.
  assert (Hw2 : caches w2
                = List.filter (fun nc => current (fst nc))
                    (caches (run_to_end env InstallEvent w))).
  { unfold w2, events. cbn [fold_left]. apply run_activate_caches. }
  assert (Hroot : is_Some (match_all (resolve_url env "/index.html") (caches w2))).
  { destruct (installed_static_region env w l Hfetched) as (c & Hc & Hin & _).
    destruct (Hin "/index.html") as (r & _ & Hr); [simpl; tauto |].
    apply (match_all_region STATIC_CACHE_NAME _ c); [| eauto].
    rewrite Hw2, region_filter_current. exact Hc. }
  destruct Hroot as [root Hroot]. exists root. split; [exact Hroot |]. split.
  - rewrite (deliver_fetch_handled _ _ _ Hhandled). cbv zeta.
    rewrite (fetch_chain_miss _ _ _ Hmiss).
    rewrite (fetch_from_network_offline _ _ _ _ Hnet).
    cbn [response settled].
    apply String.eqb_eq in Hnav. rewrite Hnav.
    now rewrite (resolve_url_same_origin env env' _ Horigin), Hroot.
  - intros Hfresh.
    destruct (installed_asset_fresh env w l "/index.html" Hfetched) as (r & Hn & Hr);
      [simpl; tauto | assumption |].
    rewrite Hn. f_equal.
    rewrite Hw2, match_all_filter in Hroot; [congruence |].
    intros name c Hin Hcur.
    assert (Hne : name <> STATIC_CACHE_NAME).
    { intros ->. discriminate Hcur. }
    rewrite run_install_caches, Hfetched in Hin.
    apply In_update_region_ne in Hin; [| assumption].
    apply In_opened_ne in Hin; [| assumption].
    now apply (proj1 (match_all_None _ _) Hfresh name c).
Qed.

Lemma offline_navigation_after_install_gets_root_document_witness :
  response (deliver Scenario.offline (FetchEvent Scenario.navigation)
              (events Scenario.online [InstallEvent; ActivateEvent] Scenario.upgraded))
  = Some (Resolved (Some Scenario.page)).
Proof.
  destruct (fetched_all Scenario.online (static_targets Scenario.online)) as [l |] eqn:El;
    [| vm_compute in El; discriminate].
  destruct (offline_navigation_after_install_gets_root_document Scenario.online
              Scenario.offline Scenario.upgraded l Scenario.navigation "Failed to fetch" El
              eq_refl eq_refl eq_refl eq_refl eq_refl)
    as (root & _ & Hresp & Hnet).
  specialize (Hnet eq_refl). injection Hnet as <-. exact Hresp.
Defined.

(** X11. Activation leaves the two current regions exactly as they were,
    and a second activation changes nothing in the storage. *)
Theorem activation_keeps_current_regions (env : Env) (w : World) :
  let w' := run_to_end env ActivateEvent w in
  region STATIC_CACHE_NAME (caches w') = region STATIC_CACHE_NAME (caches w)
  /\ region DYNAMIC_CACHE_NAME (caches w') = region DYNAMIC_CACHE_NAME (caches w)
  /\ caches (run_to_end env ActivateEvent w') = caches w'.
Proof.
  intros w'. subst w'. rewrite !run_activate_caches, !region_filter_current.
  split; [reflexivity |]. split; [reflexivity |].
  rewrite filter_filter. apply filter_ext. intros [n c]. cbn [fst].
  now destruct (current n).
Qed.

(** ** Messages, run to their end *)

Lemma run_message env data ports w :
  run_to_end env (MessageEvent data ports) w =
  let w0 := {| caches := caches w;
               trace := trace w ++ (if data_type_is data "SKIP_WAITING"
                                    then [SkipWaiting] else []) |} in
  if data_type_is data "UPDATE_CACHE" then after (update_cache ports env w0) else w0.
Proof.
  unfold run_to_end, deliver, listener, on_message.
  cbn [immediate respondWith waitUntil unreturned settle_waited left_over at_settlement].
  destruct (data_type_is data "UPDATE_CACHE"); reflexivity.
Qed.

Lemma update_cache_caches ports env w :
  caches (after (update_cache ports env w)) =
  delete_region DYNAMIC_CACHE_NAME (delete_region STATIC_CACHE_NAME (caches w))
  ++ [(STATIC_CACHE_NAME,
       match fetched_all env (static_targets env) with
       | Resolved l => populated l ∅
       | Rejected _ => ∅
       end)].
Proof.
  rewrite update_cache_spec. cbv zeta.
  destruct (fetched_all env (static_targets env)); destruct ports; reflexivity.
Qed.

(** X12. A message that is not UPDATE_CACHE touches no region, sends
    nothing to the network, posts no reply and leaves nothing running; the
    only thing it may do is call `skipWaiting()`, exactly when its type is
    SKIP_WAITING.  Messages without data or of an unknown type are ignored. *)
Theorem other_messages_only_skip_waiting
    (env : Env) (w : World) (data : option string) (ports : list nat)
    (Hother : data_type_is data "UPDATE_CACHE" = false) :
  deliver env (MessageEvent data ports) w =
  {| response := None;
     at_settlement :=
       {| caches := caches w;
          trace := trace w ++ (if data_type_is data "SKIP_WAITING"
                               then [SkipWaiting] else []) |};
     left_over := [] |}
  /\ (data_type_is data "SKIP_WAITING" = false ->
      run_to_end env (MessageEvent data ports) w = w).
Proof.
  split.
  - unfold deliver, listener, on_message.
    cbn [immediate respondWith waitUntil unreturned settle_waited]. now rewrite Hother.
  - intros Hskip. rewrite run_message. cbv zeta. rewrite Hother, Hskip.
    apply run_immediate_nil.
Qed.

Lemma other_messages_only_skip_waiting_witness :
  run_to_end Scenario.online (MessageEvent (Some "PING") [1%nat]) Scenario.installed
  = Scenario.installed
  /\ run_to_end Scenario.online (MessageEvent None []) Scenario.installed
     = Scenario.installed.
Proof.
  split.
  - apply (proj2 (other_messages_only_skip_waiting Scenario.online Scenario.installed
                    (Some "PING") [1%nat] eq_refl)).
    reflexivity.
  - apply (proj2 (other_messages_only_skip_waiting Scenario.online Scenario.installed
                    None [] eq_refl)).
    reflexivity.
Defined.

Lemma failed_update_caches_lookup env w ports m :
  fetched_all env (static_targets env) = Rejected m ->
  (forall name, In name (region_names (caches w)) -> current name = true) ->
  forall key,
    match_all key
      (caches (run_to_end env (MessageEvent (Some "UPDATE_CACHE") ports) w)) = None.
Proof.
  intros Hfail Hown key. rewrite run_update_cache, update_cache_caches, Hfail.
  rewrite (deletes_leave_nothing _ Hown). simpl. now rewrite lookup_empty.
Qed.

(** X13. An UPDATE_CACHE whose population fails leaves the worker without
    any cached content: in a storage that held only the two current
    regions, all that remains is an empty STATIC region, so no lookup finds
    anything, with or without a reply port. *)
Theorem failed_update_empties_the_caches
    (env : Env) (w : World) (ports : list nat) (m : string)
    (Hfail : fetched_all env (static_targets env) = Rejected m)
    (Hown : forall name, In name (region_names (caches w)) -> current name = true) :
  let w' := run_to_end env (MessageEvent (Some "UPDATE_CACHE") ports) w in
  caches w' = [(STATIC_CACHE_NAME, ∅)]
  /\ forall key, match_all key (caches w') = None.
Proof.
  intros w'. subst w'. rewrite run_update_cache, update_cache_caches, Hfail.
  rewrite (deletes_leave_nothing _ Hown). split; [reflexivity |].
  intros key. simpl. now rewrite lookup_empty.
Qed.

Lemma failed_update_empties_the_caches_witness :
  caches (run_to_end Scenario.offline (MessageEvent (Some "UPDATE_CACHE") [1%nat])
            Scenario.installed) = [(STATIC_CACHE_NAME, ∅)]
  /\ match_all "https://riprap.example/index.html"
       (caches (run_to_end Scenario.offline (MessageEvent (Some "UPDATE_CACHE") [1%nat])
                  Scenario.installed)) = None.
Proof.
  assert (Hown : forall name, In name (region_names (caches Scenario.installed)) ->
                              current name = true).
  { intros name [<- | []]. reflexivity. }
  destruct (failed_update_empties_the_caches Scenario.offline Scenario.installed [1%nat]
              "Failed to fetch" eq_refl Hown) as [Hc Hk].
  split; [exact Hc | apply Hk].
Defined.

(** X14. Sent while the network is unreachable, UPDATE_CACHE destroys the
    offline shell: a navigation that the cached root document would have
    answered is, after the failed update, answered with no response at
    all. *)
Theorem failed_update_breaks_offline_navigation
    (env : Env) (w : World) (ports : list nat) (request : Request) (m m' : string)
    (Hfail : fetched_all env (static_targets env) = Rejected m)
    (Hown : forall name, In name (region_names (caches w)) -> current name = true)
    (Hhandled : skipped env request = false)
    (Hnav : destination request = "document")
    (Hnet : network env (url request) = Rejected m') :
  response (deliver env (FetchEvent request)
              (run_to_end env (MessageEvent (Some "UPDATE_CACHE") ports) w))
  = Some (Resolved None).
Proof.
  pose proof (failed_update_caches_lookup env w ports m Hfail Hown) as Hnone.
  rewrite (deliver_fetch_handled _ _ _ Hhandled). cbv zeta.
  rewrite (fetch_chain_miss _ _ _ (Hnone _)).
  rewrite (fetch_from_network_offline _ _ _ _ Hnet).
  cbn [response settled].
  apply String.eqb_eq in Hnav. now rewrite Hnav, Hnone.
Qed.

Lemma failed_update_breaks_offline_navigation_witness :
  response (deliver Scenario.offline (FetchEvent Scenario.navigation) Scenario.installed)
  = Some (Resolved (Some Scenario.page))
  /\ response (deliver Scenario.offline (FetchEvent Scenario.navigation)
                 (run_to_end Scenario.offline (MessageEvent (Some "UPDATE_CACHE") [1%nat])
                    Scenario.installed))
     = Some (Resolved None).
Proof.
  split; [vm_compute; reflexivity |].
  apply (failed_update_breaks_offline_navigation Scenario.offline Scenario.installed
           [1%nat] Scenario.navigation "Failed to fetch" "Failed to fetch").
  - reflexivity.
  - intros name [<- | []]. reflexivity.
  - reflexivity.
  - reflexivity.
  - reflexivity.
Defined.

(** X15. Once the worker has been activated, a successful UPDATE_CACHE
    leaves a storage made of the STATIC region alone, holding the static
    assets and nothing else: every URL that is no static asset is looked up
    in vain, whatever the regions held before. *)
Theorem update_after_activation_leaves_only_static_assets
    (env : Env) (w : World) (ports : list nat) (l : list (string * Response))
    (Hfetched : fetched_all env (static_targets env) = Resolved l) :
  let w' := events env [ActivateEvent; MessageEvent (Some "UPDATE_CACHE") ports] w in
  caches w' = [(STATIC_CACHE_NAME, populated l ∅)]
  /\ (forall key, ~ In key (static_targets env) -> match_all key (caches w') = None)
  /\ (forall asset, In asset STATIC_FILES ->
        exists r, network env (resolve_url env asset) = Resolved r
                  /\ match_all (resolve_url env asset) (caches w') = Some r).
Proof.
  intros w'. subst w'. unfold events. cbn [fold_left].
  rewrite run_update_cache, update_cache_caches, Hfetched.
  rewrite deletes_leave_nothing.
  - destruct (populated_fetched env (static_targets env) l ∅ Hfetched) as [Hin Hout].
    split; [reflexivity |]. split.
    + intros key Hk. simpl. rewrite (Hout key Hk). now rewrite lookup_empty.
    + intros asset Ha.
      destruct (Hin (resolve_url env asset)) as (r & Hn & Hr).
      { unfold static_targets. now apply in_map. }
      exists r. split; [assumption |]. simpl. now rewrite Hr.
  - intros name Hin. rewrite run_activate_caches in Hin.
    unfold region_names in Hin. apply in_map_iff in Hin.
    destruct Hin as [[n c] [<- Hin]]. apply filter_In in Hin. tauto.
Qed.

Lemma update_after_activation_leaves_only_static_assets_witness :
  match_all "https://riprap.example/api/posts"
    (caches (events Scenario.online [ActivateEvent; MessageEvent (Some "UPDATE_CACHE") []]
               Scenario.with_other_region)) = None.
Proof.
  destruct (fetched_all Scenario.online (static_targets Scenario.online)) as [l |] eqn:El;
    [| vm_compute in El; discriminate].
  apply (proj1 (proj2 (update_after_activation_leaves_only_static_assets Scenario.online
                         Scenario.with_other_region [] l El))).
  vm_compute. intuition discriminate.
Defined.

(** ** The sync, push and notificationclick listeners *)

Lemma syncOfflinePosts_spec env w :
  syncOfflinePosts env w =
  {| settled := Resolved tt;
     after :=
       {| caches := caches w;
          trace := (trace w ++ [ConsoleLog "[SW] Syncing offline posts..."])
                   ++ match indexedDB_open env with
                      | Resolved db =>
                          if includes db "offline_posts" then []
                          else [ConsoleError
                                  ("[SW] Sync failed: "
                                   ++ "One of the specified object stores was not found.")]
                      | Rejected m => [ConsoleError ("[SW] Sync failed: " ++ m)]
                      end |};
     started := [] |}.
Proof.
  unfold syncOfflinePosts, catch_, then_, openDB, transaction.
  cbn [perform settled after started app caches trace].
  destruct (indexedDB_open env) as [db |]; cbn [settled after started app];
    [destruct (includes db "offline_posts") |];
    cbn [resolve reject perform settled after started app caches trace];
    rewrite ?app_nil_r; reflexivity.
Qed.

Lemma deliver_sync env tag w :
  deliver env (SyncEvent tag) w =
  let w0 := {| caches := caches w;
               trace := trace w ++ [ConsoleLog ("[SW] Background sync triggered: " ++ tag)] |} in
  {| response := None;
     at_settlement := if String.eqb tag "sync-posts"
                      then after (syncOfflinePosts env w0) else w0;
     left_over := [] |}.
Proof.
  unfold deliver, listener, on_sync.
  cbn [immediate respondWith waitUntil unreturned].
  destruct (String.eqb tag "sync-posts"); cbn [settle_waited app]; [| reflexivity].
  now rewrite syncOfflinePosts_started.
Qed.

Lemma deliver_push_caches env data w :
  caches (at_settlement (deliver env (PushEvent data) w)) = caches w
  /\ left_over (deliver env (PushEvent data) w) = [].
Proof.
  unfold deliver, listener, on_push.
  cbn [immediate respondWith waitUntil unreturned settle_waited at_settlement left_over app].
  unfold showNotification. now destruct (showNotification_allowed env).
Qed.

Lemma deliver_notificationclick_caches env action w :
  caches (at_settlement (deliver env (NotificationClickEvent action) w)) = caches w
  /\ left_over (deliver env (NotificationClickEvent action) w) = [].
Proof.
  unfold deliver, listener, on_notificationclick.
  cbn [immediate respondWith waitUntil unreturned].
  now destruct (String.eqb action "view").
Qed.

(** X16. A sync event never fails and never sends anything: the chain of
    `syncOfflinePosts` resolves whatever the database does, an open that
    rejects or a database without the `offline_posts` store is only logged
    with `console.error`, no region is changed and no request goes to the
    network; a tag other than 'sync-posts' is only logged. *)
Theorem sync_swallows_its_errors (env : Env) (w : World) (tag : string) :
  let d := deliver env (SyncEvent tag) w in
  (forall w0, settled (syncOfflinePosts env w0) = Resolved tt)
  /\ caches (at_settlement d) = caches w
  /\ network_fetches (trace (at_settlement d)) = network_fetches (trace w)
  /\ left_over d = []
  /\ (tag <> "sync-posts" ->
      trace (at_settlement d)
      = trace w ++ [ConsoleLog ("[SW] Background sync triggered: " ++ tag)])
  /\ (tag = "sync-posts" ->
      forall m, indexedDB_open env = Rejected m ->
                In (ConsoleError ("[SW] Sync failed: " ++ m)) (trace (at_settlement d)))
  /\ (tag = "sync-posts" ->
      forall db, indexedDB_open env = Resolved db ->
                 includes db "offline_posts" = false ->
                 exists text, In (ConsoleError text) (trace (at_settlement d))).
Proof.
  intros d. subst d. rewrite deliver_sync. cbv zeta. cbn [at_settlement left_over].
  split; [intros w0; now rewrite syncOfflinePosts_spec |].
  split; [destruct (String.eqb tag "sync-posts"); [rewrite syncOfflinePosts_spec |];
          reflexivity |].
  split.
  { destruct (String.eqb tag "sync-posts"); [rewrite syncOfflinePosts_spec |];
      cbn [after trace]; unfold network_fetches; rewrite !flat_map_app; simpl;
      rewrite ?app_nil_r; [| reflexivity].
    destruct (indexedDB_open env) as [db |]; [destruct (includes db "offline_posts") |];
      simpl; now rewrite ?app_nil_r. }
  split; [reflexivity |].
  split; [| split].
  - intros Hne. apply String.eqb_neq in Hne. now rewrite Hne.
  - intros -> m Hm. rewrite String.eqb_refl, syncOfflinePosts_spec, Hm.
    cbn [after trace]. rewrite in_app_iff. right. now left.
  - intros -> db Hdb Hstore. rewrite String.eqb_refl, syncOfflinePosts_spec, Hdb, Hstore.
    cbn [after trace]. eexists. rewrite in_app_iff. right. now left.
Qed.

Lemma sync_swallows_its_errors_witness :
  exists text,
    In (ConsoleError text)
       (trace (at_settlement (deliver Scenario.online (SyncEvent "sync-posts")
                                Scenario.fresh))).
Proof.
  apply (proj2 (proj2 (proj2 (proj2 (proj2 (proj2
           (sync_swallows_its_errors Scenario.online Scenario.fresh "sync-posts")))))))
    with (db := []); reflexivity.
Defined.

(** ** The regions of the storage, over any run of events *)

Lemma In_region_names_opened (name other : string)
    (st : list (string * gmap string Response)) :
  In name (region_names (opened other st)) ->
  In name (region_names st) \/ name = other.
Proof.
  rewrite region_names_opened. destruct (region other st); [tauto |].
  rewrite in_app_iff. simpl. intuition.
Qed.

Lemma NoDup_region_names_opened (other : string)
    (st : list (string * gmap string Response)) :
  List.NoDup (region_names st) -> List.NoDup (region_names (opened other st)).
Proof.
  intros Hnd. rewrite region_names_opened.
  destruct (region other st) eqn:E; [assumption |].
  apply region_None_names in E.
  apply List.NoDup_app; [assumption | |].
  - apply List.NoDup_cons; [intros [] | apply List.NoDup_nil].
  - intros x Hx [<- | []]. contradiction.
Qed.

Lemma region_names_filter (P : string -> bool) (st : list (string * gmap string Response)) :
  region_names (List.filter (fun nc => P (fst nc)) st) = List.filter P (region_names st).
Proof.
  unfold region_names. induction st as [| [n c] st IH]; simpl; [reflexivity |].
  destruct (P n); simpl; now rewrite IH.
Qed.

Lemma region_names_after_update (st : list (string * gmap string Response))
    (c : gmap string Response) :
  region_names (delete_region DYNAMIC_CACHE_NAME (delete_region STATIC_CACHE_NAME st)
                ++ [(STATIC_CACHE_NAME, c)])
  = List.filter (fun n => negb (current n)) (region_names st) ++ [STATIC_CACHE_NAME].
Proof.
  unfold region_names at 1. rewrite map_app. fold (region_names
    (delete_region DYNAMIC_CACHE_NAME (delete_region STATIC_CACHE_NAME st))).
  rewrite !region_names_delete_region, filter_filter. simpl. f_equal.
  apply filter_ext. intros n. unfold current. now rewrite negb_orb.
Qed.

(** The storage an event leaves, in each of the shapes the listeners can
    give it. *)
Lemma event_caches env event w :
  let st := caches w in
  let st' := caches (run_to_end env event w) in
  st' = st
  \/ (exists name f, current name = true /\ st' = update_region name f (opened name st))
  \/ (exists name, current name = true /\ st' = opened name st)
  \/ st' = List.filter (fun nc => current (fst nc)) st
  \/ (exists c, st' = delete_region DYNAMIC_CACHE_NAME (delete_region STATIC_CACHE_NAME st)
                      ++ [(STATIC_CACHE_NAME, c)]).
Proof.
  cbv zeta. destruct event as [| | request | tag | data ports | data | action].
  - rewrite run_install_caches.
    destruct (fetched_all env (static_targets env)).
    + right. left. exists STATIC_CACHE_NAME. eauto.
    + right. right. left. exists STATIC_CACHE_NAME. eauto.
  - right. right. right. left. apply run_activate_caches.
  - rewrite run_fetch.
    destruct (skipped env request); [now left |].
    destruct (match_all (resolve_url env (url request)) (caches w)); [now left |].
    destruct (network env (url request)) as [r | m]; [| now left].
    destruct (cacheable r); [| now left].
    rewrite written_caches. destruct (accepted request r).
    + right. left. exists DYNAMIC_CACHE_NAME. eauto.
    + right. right. left. exists DYNAMIC_CACHE_NAME. eauto.
  - left. unfold run_to_end. rewrite deliver_sync. cbv zeta.
    cbn [left_over at_settlement run_jobs fold_left].
    destruct (String.eqb tag "sync-posts"); [rewrite syncOfflinePosts_spec |]; reflexivity.
  - rewrite run_message. cbv zeta.
    destruct (data_type_is data "UPDATE_CACHE"); [| now left].
    right. right. right. right. rewrite update_cache_caches. eauto.
  - left. unfold run_to_end.
    destruct (deliver_push_caches env data w) as [Hc Hl]. now rewrite Hl.
  - left. unfold run_to_end.
    destruct (deliver_notificationclick_caches env action w) as [Hc Hl]. now rewrite Hl.
Qed.

Lemma event_region_names env event w name :
  In name (region_names (caches (run_to_end env event w))) ->
  In name (region_names (caches w)) \/ current name = true.
Proof.
  destruct (event_caches env event w)
    as [-> | [(n & f & Hn & ->) | [(n & Hn & ->) | [-> | [c ->]]]]].
  - tauto.
  - rewrite region_names_update_region. intros H.
    apply In_region_names_opened in H. destruct H as [H | ->]; tauto.
  - intros H. apply In_region_names_opened in H. destruct H as [H | ->]; tauto.
  - rewrite region_names_filter. intros H. apply filter_In in H. tauto.
  - rewrite region_names_after_update, in_app_iff. intros [H | H].
    + apply filter_In in H. tauto.
    + simpl in H. destruct H as [<- | []]. now right.
Qed.

Lemma event_region_names_NoDup env event w :
  List.NoDup (region_names (caches w)) ->
  List.NoDup (region_names (caches (run_to_end env event w))).
Proof.
  intros Hnd.
  destruct (event_caches env event w)
    as [-> | [(n & f & Hn & ->) | [(n & Hn & ->) | [-> | [c ->]]]]].
  - assumption.
  - rewrite region_names_update_region. now apply NoDup_region_names_opened.
  - now apply NoDup_region_names_opened.
  - rewrite region_names_filter. now apply List.NoDup_filter.
  - rewrite region_names_after_update.
    apply List.NoDup_app; [now apply List.NoDup_filter | |].
    + apply List.NoDup_cons; [intros [] | apply List.NoDup_nil].
    + intros x Hx [<- | []]. apply filter_In in Hx. destruct Hx as [_ Hx].
      discriminate.
Qed.

(** X17. Over any run of events of any kind, the worker creates no region
    under a name other than the current STATIC and DYNAMIC names, and the
    region names of the storage stay pairwise distinct. *)
Theorem events_keep_the_storage_well_formed (env : Env) (evs : list Event) (w : World) :
  (forall name,
     In name (region_names (caches (events env evs w))) ->
     In name (region_names (caches w))
     \/ name = STATIC_CACHE_NAME \/ name = DYNAMIC_CACHE_NAME)
  /\ (List.NoDup (region_names (caches w)) ->
      List.NoDup (region_names (caches (events env evs w)))).
Proof.
  unfold events. revert w. induction evs as [| event evs IH]; intros w; cbn [fold_left].
  - split; [tauto | tauto].
  - destruct (IH (run_to_end env event w)) as [IHn IHd]. split.
    + intros name Hin. destruct (IHn name Hin) as [H | H]; [| tauto].
      destruct (event_region_names env event w name H) as [H' | H']; [tauto |].
      right. now apply current_spec.
    + intros Hnd. apply IHd. now apply event_region_names_NoDup.
Qed.

Lemma events_keep_the_storage_well_formed_witness :
  List.NoDup
    (region_names
       (caches (events Scenario.online
                  [InstallEvent; ActivateEvent; FetchEvent Scenario.posts;
                   MessageEvent (Some "UPDATE_CACHE") [1%nat]; SyncEvent "sync-posts"]
                  Scenario.upgraded))).
Proof.
  apply (proj2 (events_keep_the_storage_well_formed Scenario.online
                  [InstallEvent; ActivateEvent; FetchEvent Scenario.posts;
                   MessageEvent (Some "UPDATE_CACHE") [1%nat]; SyncEvent "sync-posts"]
                  Scenario.upgraded)).
  repeat (apply List.NoDup_cons; [vm_compute; intuition discriminate |]).
  apply List.NoDup_nil.
Defined.
